(** * Sorted index and persistence core of the todo service

    A shallow embedding of [internal/service/todo_service.go] (the version
    with binary search) and of [internal/models/todo.go], followed by the
    properties of the sorted index, the persistence layer, the ID allocator
    and the service operations. *)

From Stdlib Require Import ZArith Lia.
From Stdlib Require Import Ascii String.
From stdpp Require Import base tactics option list strings sorting.
From Equations Require Import Equations.

Local Open Scope Z_scope.

(** ** Data model ([models.Todo], [models.TodoRequest]) *)

Module models.

Record Todo := mkTodo { ID : Z; Contents : string }.

(** The fields [ID] and [Contents] of [TodoRequest]; a record field name is
    global here, hence the prefix. *)
Record TodoRequest := mkTodoRequest { ReqID : Z; ReqContents : string }.

#[global] Instance Todo_eq_dec : EqDecision Todo.
Proof. solve_decision. Defined.

End models.
Export models.

(** ** The Go runtime: [int], panics, slices *)

(** [int] is a 64-bit two's complement integer (on the 64-bit platforms);
    its arithmetic wraps around. Identifiers are [int]s, and the one
    arithmetic operation on them is the [maxID + 1] of [getNextID]. Lengths
    and positions lie between -1 and [len(todos) + 1], far from the bounds,
    and are computed on the integers. *)
Definition MaxInt : Z := 2 ^ 63 - 1.
Definition MinInt : Z := - 2 ^ 63.

Definition int_wrap (z : Z) : Z := (z + 2 ^ 63) mod 2 ^ 64 - 2 ^ 63.

(** A computation that either yields a value or stops with a run-time
    panic (index or slice bounds out of range, negative capacity). *)
Inductive go (A : Type) : Type :=
| Val (a : A)
| Panic.
Arguments Val {A} a.
Arguments Panic {A}.

#[global] Instance go_ret : MRet go := λ A a, Val a.
#[global] Instance go_bind : MBind go := λ A B f m,
  match m with
  | Val a => f a
  | Panic => Panic
  end.

(** [len(s)] as an [int]. *)
Definition len {A} (s : list A) : Z := Z.of_nat (length s).

(** [s[i]]: panics unless [0 <= i < len(s)]. *)
Definition index {A} (s : list A) (i : Z) : go A :=
  if bool_decide (0 ≤ i < len s) then
    match s !! Z.to_nat i with
    | Some a => Val a
    | None => Panic
    end
  else Panic.

(** [s[lo:hi]]: panics unless [0 <= lo <= hi <= cap(s)]. The capacity of a
    slice is at least its length; the model takes the two equal, so it
    panics wherever some run of the program may. *)
Definition slice {A} (s : list A) (lo hi : Z) : go (list A) :=
  if bool_decide (0 ≤ lo ≤ hi ∧ hi ≤ len s) then
    Val (take (Z.to_nat (hi - lo)) (drop (Z.to_nat lo) s))
  else Panic.

(** [make([]T, 0, n)]: an empty slice; panics when the capacity is negative. *)
Definition make_cap {A} (n : Z) : go (list A) :=
  if bool_decide (0 ≤ n) then Val [] else Panic.

(** [make([]T, n)]: [n] zero values; panics when [n] is negative. *)
Definition make_len {A} (zero : A) (n : Z) : go (list A) :=
  if bool_decide (0 ≤ n) then Val (replicate (Z.to_nat n) zero) else Panic.

(** [copy(dst[lo:hi], src)]: the window [dst[lo:hi]] shares its storage with
    [dst], so the copy is seen through [dst]; it moves
    [min(len(dst[lo:hi]), len(src))] elements. *)
Definition copy_into {A} (dst : list A) (lo hi : Z) (src : list A) : go (list A) :=
  window ← slice dst lo hi;
  let n := Nat.min (length window) (length src) in
  Val (take (Z.to_nat lo) dst ++ take n src ++ drop (Z.to_nat lo + n) dst).

(** [s[i] = x]: panics unless [0 <= i < len(s)]. *)
Definition store {A} (s : list A) (i : Z) (x : A) : go (list A) :=
  if bool_decide (0 ≤ i < len s) then Val (<[Z.to_nat i := x]> s) else Panic.

Definition zeroTodo : Todo := mkTodo 0 "".

(** ** Sorted index *)

(** The loop of [binarySearchTodoByID], from the state [left = l],
    [right = r] ([left] and [right] are constructor names here). Go's [/]
    truncates, hence [quot]. *)
Equations? binarySearchTodoByID_loop (todos : list Todo) (targetID : Z)
    (l r : Z) : go Z by wf (Z.to_nat (r - l + 1)) lt :=
  binarySearchTodoByID_loop todos targetID l r with decide (l ≤ r) => {
    | right _ => Val (-1);
    | left _ =>
        let mid := l + (r - l) `quot` 2 in
        midTodo ← index todos mid;
        if bool_decide (ID midTodo = targetID) then Val mid
        else if bool_decide (ID midTodo < targetID) then
          binarySearchTodoByID_loop todos targetID (mid + 1) r
        else
          binarySearchTodoByID_loop todos targetID l (mid - 1) }.
Proof.
  all: subst mid; rewrite Z.quot_div_nonneg by lia;
    pose proof (Z.div_pos (r - l) 2);
    pose proof (Z.mul_div_le (r - l) 2); lia.
Qed.

Definition binarySearchTodoByID (todos : list Todo) (targetID : Z) : go Z :=
  binarySearchTodoByID_loop todos targetID 0 (len todos - 1).

(** The loop of [insertTodoSorted] that finds the insertion position, from
    [left = l], [right = r]; it returns the final [left]. *)
Equations? insertTodoSorted_loop (todos : list Todo) (newID : Z)
    (l r : Z) : go Z by wf (Z.to_nat (r - l)) lt :=
  insertTodoSorted_loop todos newID l r with decide (l < r) => {
    | right _ => Val l;
    | left _ =>
        let mid := l + (r - l) `quot` 2 in
        midTodo ← index todos mid;
        if bool_decide (ID midTodo < newID) then
          insertTodoSorted_loop todos newID (mid + 1) r
        else
          insertTodoSorted_loop todos newID l mid }.
Proof.
  all: subst mid; rewrite Z.quot_div_nonneg by lia;
    pose proof (Z.div_pos (r - l) 2);
    pose proof (Z.mul_div_le (r - l) 2);
    pose proof (Z.div_lt (r - l) 2); lia.
Qed.

Definition insertTodoSorted (todos : list Todo) (newTodo : Todo) : go (list Todo) :=
  if bool_decide (len todos = 0) then
    Val (todos ++ [newTodo])
  else
    pos ← insertTodoSorted_loop todos (ID newTodo) 0 (len todos);
    result ← make_len zeroTodo (len todos + 1);
    head ← slice todos 0 pos;
    result ← copy_into result 0 pos head;
    result ← store result pos newTodo;
    tail ← slice todos pos (len todos);
    copy_into result (pos + 1) (len result) tail.

(** The excision of [DeleteTodo] (the spec's [removeAt]):
    [make([]Todo, 0, len(todos)-1)] followed by the two [append]s. *)
Definition removeAt (todos : list Todo) (i : Z) : go (list Todo) :=
  newTodos ← make_cap (len todos - 1);
  head ← slice todos 0 i;
  let newTodos := newTodos ++ head in
  tail ← slice todos (i + 1) (len todos);
  Val (newTodos ++ tail).

(** ** ID allocator *)

Definition getNextID (todos : list Todo) : Z :=
  let maxID :=
    fold_left (λ maxID todo, if bool_decide (ID todo > maxID) then ID todo else maxID)
              todos 0 in
  int_wrap (maxID + 1).

(** ** Errors *)

(** The [error] values the service builds: the three messages of its own,
    the failures of the file and JSON calls, and [fmt.Errorf("...: %w", err)]
    wrapping. *)
Inductive error : Type :=
| ErrEmptyContents               (* "contents cannot be empty" *)
| ErrNotFound (id : Z)           (* "todo with ID %d not found" *)
| ErrOpen                        (* os.Open failed, file exists *)
| ErrDecode                      (* decoder.Decode failed *)
| ErrCreate                      (* os.Create failed *)
| ErrEncode                      (* encoder.Encode failed *)
| ErrWrap (context : string) (cause : error).

(** The taxonomy of the specification. *)
Inductive error_kind := ValidationError | NotFoundError | IOError | ParseError.

Fixpoint kind_of (e : error) : error_kind :=
  match e with
  | ErrEmptyContents => ValidationError
  | ErrNotFound _ => NotFoundError
  | ErrOpen | ErrCreate | ErrEncode => IOError
  | ErrDecode => ParseError
  | ErrWrap _ cause => kind_of cause
  end.

(** Go's [(value, error)] result pair. *)
Inductive ret (A : Type) : Type :=
| Ok (a : A)
| Err (e : error).
Arguments Ok {A} a.
Arguments Err {A} e.

(** ** Library functions outside the repository *)

Definition less_ID (a b : Todo) : bool := bool_decide (ID a < ID b).

(** [strings.TrimSpace] and [sort.Slice] (called with the comparison of
    [loadTodos]) belong to Go's standard library. [sort.Slice] is not
    stable: it promises a permutation in which no element is less than its
    predecessor, and nothing about the order of equal keys. *)
Class Library := {
  TrimSpace : string → string;
  sort_Slice : list Todo → list Todo;
  sort_Slice_perm : ∀ todos, sort_Slice todos ≡ₚ todos;
  sort_Slice_sorted : ∀ todos,
    Sorted (λ a b, less_ID b a = false) (sort_Slice todos);
}.

(** ** Persistence layer *)

(** *** Text in JSON

    [encoding/json] is outside the repository. Its documentation says of
    the encoder: string values encode as JSON strings coerced to valid
    UTF-8, replacing invalid bytes with the Unicode replacement rune; the
    decoder does the same to the text of a string literal. A Go string is a
    sequence of bytes, so [Contents] may hold bytes that are not UTF-8. *)

Definition byte_of (c : ascii) : Z := Z.of_N (N_of_ascii c).

(** The table of [unicode/utf8] for a first byte above ASCII: the size of
    the sequence and the range its second byte must lie in; [None] for a
    byte that starts no sequence. *)
Definition utf8_first (b : Z) : option (nat * Z * Z) :=
  if bool_decide (0xC2 ≤ b ≤ 0xDF) then Some (2%nat, 0x80, 0xBF)
  else if bool_decide (b = 0xE0) then Some (3%nat, 0xA0, 0xBF)
  else if bool_decide (0xE1 ≤ b ≤ 0xEC) then Some (3%nat, 0x80, 0xBF)
  else if bool_decide (b = 0xED) then Some (3%nat, 0x80, 0x9F)
  else if bool_decide (0xEE ≤ b ≤ 0xEF) then Some (3%nat, 0x80, 0xBF)
  else if bool_decide (b = 0xF0) then Some (4%nat, 0x90, 0xBF)
  else if bool_decide (0xF1 ≤ b ≤ 0xF3) then Some (4%nat, 0x80, 0xBF)
  else if bool_decide (b = 0xF4) then Some (4%nat, 0x80, 0x8F)
  else None.

Definition in_range (lo hi : Z) (c : ascii) : bool :=
  bool_decide (lo ≤ byte_of c ≤ hi).

(** [utf8.DecodeRuneInString] as far as its size goes: the number of bytes
    of the well-formed sequence at the head of [s], and 0 where the library
    answers [RuneError] with size 1 (or [s] is empty). *)
Definition utf8_size (s : string) : nat :=
  match s with
  | EmptyString => 0%nat
  | String c0 r0 =>
      if bool_decide (byte_of c0 < 0x80) then 1%nat
      else
        match utf8_first (byte_of c0), r0 with
        | Some (size, lo, hi), String c1 r1 =>
            if negb (in_range lo hi c1) then 0%nat
            else if bool_decide (size = 2%nat) then 2%nat
            else
              match r1 with
              | String c2 r2 =>
                  if negb (in_range 0x80 0xBF c2) then 0%nat
                  else if bool_decide (size = 3%nat) then 3%nat
                  else
                    match r2 with
                    | String c3 _ => if in_range 0x80 0xBF c3 then 4%nat else 0%nat
                    | EmptyString => 0%nat
                    end
              | EmptyString => 0%nat
              end
        | _, _ => 0%nat
        end
  end.

(** U+FFFD in UTF-8. *)
Definition replacement_rune (s : string) : string :=
  String "239" (String "191" (String "189" s)).

(** The scan of the encoder over the bytes of a string: [pending] bytes of
    the sequence under way are copied; at the head of a well-formed
    sequence its bytes are copied; any other byte is replaced by U+FFFD. *)
Fixpoint json_scan (pending : nat) (s : string) : string :=
  match s with
  | EmptyString => EmptyString
  | String c r =>
      match pending with
      | S n => String c (json_scan n r)
      | O =>
          match utf8_size s with
          | S n => String c (json_scan n r)
          | O => replacement_rune (json_scan 0 r)
          end
      end
  end.

(** The text that a string is once written by [Encode] (and the text that
    [Decode] reads from a string literal with these bytes). *)
Definition json_text (s : string) : string := json_scan 0 s.

Definition json_record (todo : Todo) : Todo :=
  mkTodo (ID todo) (json_text (Contents todo)).

(** [utf8.ValidString]: every byte belongs to a well-formed sequence. *)
Fixpoint valid_scan (pending : nat) (s : string) : bool :=
  match s with
  | EmptyString => true
  | String c r =>
      match pending with
      | S n => valid_scan n r
      | O =>
          match utf8_size s with
          | S n => valid_scan n r
          | O => false
          end
      end
  end.

Definition valid_UTF8 (s : string) : Prop := valid_scan 0 s = true.

#[global] Instance valid_UTF8_dec s : Decision (valid_UTF8 s) :=
  decide (valid_scan 0 s = true).

(** *** The file

    The bytes of the file as far as [encoding/json] tells them apart: a
    text that does not decode, or the text of an array of records. *)
Inductive payload : Type :=
| Malformed
| Array (todos : list Todo).

(** [Encode(todos)]: the array with every [Contents] coerced. *)
Definition json_encode (todos : list Todo) : payload :=
  Array (json_record <$> todos).

(** [Decode(&todos)]: fails on a text that is not an array of records;
    the strings it returns are coerced as well. *)
Definition json_decode (p : payload) : ret (list Todo) :=
  match p with
  | Malformed => Err ErrDecode
  | Array todos => Ok (json_record <$> todos)
  end.

(** The backing file of a [TodoService] and the faults of its medium:
    [file] is [None] when the file does not exist; [open_fault] makes
    [os.Open] fail for another reason than absence; [create_fault] makes
    [os.Create] fail; [write_fault = Some p] makes [Encode] fail and leaves
    [p] in the file. *)
Record Disk := mkDisk {
  file : option payload;
  open_fault : bool;
  create_fault : bool;
  write_fault : option payload;
}.

Definition set_file (d : Disk) (f : option payload) : Disk :=
  mkDisk f (open_fault d) (create_fault d) (write_fault d).

Definition healthy (d : Disk) : Prop :=
  open_fault d = false ∧ create_fault d = false ∧ write_fault d = None.

#[global] Instance healthy_dec d : Decision (healthy d).
Proof. unfold healthy. apply _. Defined.

Section service.
Context `{Library}.

Definition validateTodoRequest (req : TodoRequest) : option error :=
  if bool_decide (TrimSpace (ReqContents req) = "") then Some ErrEmptyContents
  else None.

(** [loadTodos], one section under the read lock; the file is not changed. *)
Definition loadTodos (d : Disk) : ret (list Todo) :=
  if open_fault d then Err ErrOpen
  else match file d with
       | None => Ok []
       | Some p =>
           match json_decode p with
           | Err err => Err err
           | Ok todos => Ok (sort_Slice todos)
           end
       end.

(** [saveTodos], one section under the write lock. *)
Definition saveTodos (d : Disk) (todos : list Todo) : option error * Disk :=
  if create_fault d then (Some ErrCreate, d)
  else match write_fault d with
       | Some p => (Some ErrEncode, set_file d (Some p))
       | None => (None, set_file d (Some (json_encode todos)))
       end.

(** A request passes validation when its trimmed contents is not empty. *)
Definition valid (req : TodoRequest) : Prop := TrimSpace (ReqContents req) ≠ "".

(** A store that holds no record: [loadTodos] succeeds with the empty
    sequence (no file yet, or a file with an empty array). *)
Definition empty_store (d : Disk) : Prop := loadTodos d = Ok [].

End service.

(** ** Service operations *)

(** A service operation is a computation whose only contacts with the file
    are calls of [loadTodos] and [saveTodos]. Each call takes and releases
    the mutex on its own, so the calls are the atomic steps of an operation:
    between two of them no lock is held. *)
Inductive prog (A : Type) : Type :=
| Return (a : A)
| Crash
| CallLoad (k : ret (list Todo) → prog A)
| CallSave (todos : list Todo) (k : option error → prog A).
Arguments Return {A} a.
Arguments Crash {A}.
Arguments CallLoad {A} k.
Arguments CallSave {A} todos k.

Fixpoint prog_bind {A B} (f : A → prog B) (p : prog A) : prog B :=
  match p with
  | Return a => f a
  | Crash => Crash
  | CallLoad k => CallLoad (λ r, prog_bind f (k r))
  | CallSave todos k => CallSave todos (λ e, prog_bind f (k e))
  end.

#[global] Instance prog_mret : MRet prog := λ A a, Return a.
#[global] Instance prog_mbind : MBind prog := λ A B f p, prog_bind f p.

Definition call_loadTodos : prog (ret (list Todo)) := CallLoad Return.
Definition call_saveTodos (todos : list Todo) : prog (option error) :=
  CallSave todos Return.

(** A pure computation inside an operation; its panic ends the operation. *)
Definition lift {A} (m : go A) : prog A :=
  match m with
  | Val a => Return a
  | Panic => Crash
  end.

Section operations.
Context `{Library}.

Definition GetAllTodos : prog (ret (list Todo)) := call_loadTodos.

Definition CreateTodo (req : TodoRequest) : prog (ret Todo) :=
  match validateTodoRequest req with
  | Some err => Return (Err err)
  | None =>
      loaded ← call_loadTodos;
      match loaded with
      | Err err => Return (Err (ErrWrap "failed to load todos" err))
      | Ok todos =>
          let newTodo := mkTodo (getNextID todos) (TrimSpace (ReqContents req)) in
          todos ← lift (insertTodoSorted todos newTodo);
          saved ← call_saveTodos todos;
          match saved with
          | Some err => Return (Err (ErrWrap "failed to save todo" err))
          | None => Return (Ok newTodo)
          end
      end
  end.

Definition UpdateTodo (id : Z) (req : TodoRequest) : prog (ret Todo) :=
  match validateTodoRequest req with
  | Some err => Return (Err err)
  | None =>
      loaded ← call_loadTodos;
      match loaded with
      | Err err => Return (Err (ErrWrap "failed to load todos" err))
      | Ok todos =>
          i ← lift (binarySearchTodoByID todos id);
          if bool_decide (i = -1) then Return (Err (ErrNotFound id))
          else
            old ← lift (index todos i);
            todos ← lift (store todos i
                            (mkTodo (ID old) (TrimSpace (ReqContents req))));
            updatedTodo ← lift (index todos i);
            saved ← call_saveTodos todos;
            match saved with
            | Some err => Return (Err (ErrWrap "failed to save todo" err))
            | None => Return (Ok updatedTodo)
            end
      end
  end.

Definition DeleteTodo (id : Z) : prog (option error) :=
  loaded ← call_loadTodos;
  match loaded with
  | Err err => Return (Some (ErrWrap "failed to load todos" err))
  | Ok todos =>
      i ← lift (binarySearchTodoByID todos id);
      if bool_decide (i = -1) then Return (Some (ErrNotFound id))
      else
        newTodos ← lift (removeAt todos i);
        saved ← call_saveTodos newTodos;
        match saved with
        | Some err => Return (Some (ErrWrap "failed to save todos" err))
        | None => Return None
        end
  end.

(** One caller at a time: every call runs to its end on the current file. *)
Fixpoint run {A} (p : prog A) (d : Disk) : go A * Disk :=
  match p with
  | Return a => (Val a, d)
  | Crash => (Panic, d)
  | CallLoad k => run (k (loadTodos d)) d
  | CallSave todos k =>
      let '(err, d') := saveTodos d todos in run (k err) d'
  end.

(** Several callers: a pool of operations in progress; a step runs the
    next call of one of them. A schedule lists which one steps. *)
Definition step {A} (p : prog A) (d : Disk) : prog A * Disk :=
  match p with
  | CallLoad k => (k (loadTodos d), d)
  | CallSave todos k => let '(err, d') := saveTodos d todos in (k err, d')
  | _ => (p, d)
  end.

Fixpoint interleave {A} (schedule : list nat) (pool : list (prog A)) (d : Disk)
    : list (prog A) * Disk :=
  match schedule with
  | [] => (pool, d)
  | i :: schedule =>
      match pool !! i with
      | None => interleave schedule pool d
      | Some p =>
          let '(p', d') := step p d in
          interleave schedule (<[i := p']> pool) d'
      end
  end.

End operations.

(** ** A reference library

    One implementation of the two library functions, used to run the
    operations on concrete stores: a merge sort for [sort.Slice] and a
    [TrimSpace] that knows the six ASCII white-space characters. *)
Module reference.

Definition is_space (c : ascii) : bool :=
  bool_decide (c = " "%char ∨ c = "009"%char ∨ c = "010"%char ∨
               c = "011"%char ∨ c = "012"%char ∨ c = "013"%char).

Fixpoint trim_left (s : list ascii) : list ascii :=
  match s with
  | c :: s' => if is_space c then trim_left s' else s
  | [] => []
  end.

Definition trim_space (s : string) : string :=
  string_of_list_ascii
    (reverse (trim_left (reverse (trim_left (list_ascii_of_string s))))).

Definition le_ID (a b : Todo) : Prop := ID a ≤ ID b.

#[local] Instance le_ID_dec a b : Decision (le_ID a b).
Proof. unfold le_ID. apply _. Defined.

#[local] Instance le_ID_total : Total le_ID.
Proof. intros a b. unfold le_ID. lia. Qed.

#[global, refine] Instance library : Library := {|
  TrimSpace := trim_space;
  sort_Slice := merge_sort le_ID;
|}.
Proof.
  - intros todos. apply merge_sort_Permutation.
  - intros todos.
    induction (Sorted_merge_sort le_ID todos) as [|a l _ IH Hhd];
      constructor; [done|].
    destruct Hhd as [|b l Hab]; constructor.
    unfold less_ID, le_ID in *. rewrite bool_decide_eq_false. lia.
Defined.

End reference.


(** ** Vocabulary of the properties *)

(** Sorted ascending by identifier, and strictly so (no two records with
    the same identifier). *)
Definition ascending (todos : list Todo) : Prop :=
  Sorted (λ a b, ID a ≤ ID b) todos.

Definition strictly_ascending (todos : list Todo) : Prop :=
  Sorted (λ a b, ID a < ID b) todos.

(** Records whose contents are valid UTF-8: the text that [encoding/json]
    carries over unchanged. *)
Definition valid_contents (todos : list Todo) : Prop :=
  Forall (λ todo, valid_UTF8 (Contents todo)) todos.

#[global] Instance ascending_dec todos : Decision (ascending todos).
Proof. unfold ascending. apply _. Defined.

#[global] Instance strictly_ascending_dec todos : Decision (strictly_ascending todos).
Proof. unfold strictly_ascending. apply _. Defined.

(** The result of a search that answers [res] in the window [l..r]. *)
Definition found_at (todos : list Todo) (targetID l r res : Z) : Prop :=
  l ≤ res ≤ r ∧ ∃ a, index todos res = Val a ∧ ID a = targetID.

(** [pos] is the insertion point of [newID]: the records before it have a
    smaller identifier, the records from it on do not. *)
Definition insertion_point (todos : list Todo) (newID pos : Z) : Prop :=
  0 ≤ pos ≤ len todos ∧
  (∀ i a, 0 ≤ i < pos → todos !! Z.to_nat i = Some a → ID a < newID) ∧
  (∀ i a, pos ≤ i → todos !! Z.to_nat i = Some a → newID ≤ ID a).

(** The sequence with [x] put at position [p]. *)
Definition inserted_at {A} (s : list A) (p : nat) (x : A) : list A :=
  take p s ++ x :: drop p s.

(** The largest of [m] and the identifiers of the sequence. *)
Definition max_from (m : Z) (todos : list Todo) : Z :=
  foldr (λ todo acc, Z.max (ID todo) acc) m todos.

(** The maximum identifier occurring in the sequence, 0 when it is empty. *)
Definition max_id (todos : list Todo) : Z :=
  match todos with
  | [] => 0
  | todo :: rest => max_from (ID todo) rest
  end.

(** The allocator as the specification words it, on the integers. *)
Definition nextId (todos : list Todo) : Z := 1 + max_id todos.

(** Sample sequences (those of the service's tests). *)
Definition five_todos : list Todo :=
  [mkTodo 1 "First todo"; mkTodo 3 "Third todo"; mkTodo 5 "Fifth todo";
   mkTodo 7 "Seventh todo"; mkTodo 9 "Ninth todo"].

Definition three_todos : list Todo :=
  [mkTodo 1 "First todo"; mkTodo 3 "Third todo"; mkTodo 7 "Seventh todo"].

(** Sample stores: no file yet; a file edited by hand, out of order; the
    store after two creations. All on a medium without faults. *)
Definition fresh_disk : Disk := mkDisk None false false None.

Definition edited_disk : Disk :=
  mkDisk (Some (Array [mkTodo 3 "c"; mkTodo 1 "a"; mkTodo 2 "b"])) false false None.

Definition two_todos : list Todo := [mkTodo 1 "buy milk"; mkTodo 2 "walk dog"].

(** A record whose contents is the single byte 0xFF (the Go string
    ["\xff"]), which is not UTF-8. *)
Definition invalid_UTF8_todos : list Todo := [mkTodo 1 (String "255" "")].

Definition two_disk : Disk := mkDisk (Some (Array two_todos)) false false None.

(** ** The linear search of [performance_demo.go] *)

(** The [range] loop of [linearSearchTodoByID], at position [i] with [todos]
    still to visit. *)
Fixpoint linearSearchTodoByID_from (i : Z) (todos : list Todo) (targetID : Z) : Z :=
  match todos with
  | [] => -1
  | todo :: rest =>
      if bool_decide (ID todo = targetID) then i
      else linearSearchTodoByID_from (i + 1) rest targetID
  end.

Definition linearSearchTodoByID (todos : list Todo) (targetID : Z) : Z :=
  linearSearchTodoByID_from 0 todos targetID.

(** ** The service before binary search

    The earlier [todo_service.go]: [loadTodos] returns the array in file
    order, [CreateTodo] appends, [UpdateTodo] and [DeleteTodo] scan.
    [validateTodoRequest], [saveTodos] and [getNextID] are the same text in
    both versions. *)
Module service_v1.

Definition loadTodos (d : Disk) : ret (list Todo) :=
  if open_fault d then Err ErrOpen
  else match file d with
       | None => Ok []
       | Some p => json_decode p
       end.

(** The loop of [UpdateTodo]: it stops at the first record with the
    identifier, with [updatedTodo] and the slice changed in place; [None]
    when [found] stays false. *)
Fixpoint UpdateTodo_loop (id : Z) (contents : string) (todos : list Todo)
    : option (Todo * list Todo) :=
  match todos with
  | [] => None
  | todo :: rest =>
      if bool_decide (ID todo = id) then
        let updatedTodo := mkTodo (ID todo) contents in
        Some (updatedTodo, updatedTodo :: rest)
      else
        '(updatedTodo, rest') ← UpdateTodo_loop id contents rest;
        Some (updatedTodo, todo :: rest')
  end.

(** The loop of [DeleteTodo] over the state [(found, newTodos)]. *)
Definition DeleteTodo_loop (id : Z) (todos : list Todo) : bool * list Todo :=
  fold_left (λ '(found, newTodos) todo,
               if bool_decide (ID todo ≠ id) then (found, newTodos ++ [todo])
               else (true, newTodos))
            todos (false, []).

Section operations.
Context `{Library}.

Definition GetAllTodos : prog (ret (list Todo)) := call_loadTodos.

Definition CreateTodo (req : TodoRequest) : prog (ret Todo) :=
  match validateTodoRequest req with
  | Some err => Return (Err err)
  | None =>
      loaded ← call_loadTodos;
      match loaded with
      | Err err => Return (Err (ErrWrap "failed to load todos" err))
      | Ok todos =>
          let newTodo := mkTodo (getNextID todos) (TrimSpace (ReqContents req)) in
          let todos := todos ++ [newTodo] in
          saved ← call_saveTodos todos;
          match saved with
          | Some err => Return (Err (ErrWrap "failed to save todo" err))
          | None => Return (Ok newTodo)
          end
      end
  end.

Definition UpdateTodo (id : Z) (req : TodoRequest) : prog (ret Todo) :=
  match validateTodoRequest req with
  | Some err => Return (Err err)
  | None =>
      loaded ← call_loadTodos;
      match loaded with
      | Err err => Return (Err (ErrWrap "failed to load todos" err))
      | Ok todos =>
          match UpdateTodo_loop id (TrimSpace (ReqContents req)) todos with
          | None => Return (Err (ErrNotFound id))
          | Some (updatedTodo, todos) =>
              saved ← call_saveTodos todos;
              match saved with
              | Some err => Return (Err (ErrWrap "failed to save todo" err))
              | None => Return (Ok updatedTodo)
              end
          end
      end
  end.

Definition DeleteTodo (id : Z) : prog (option error) :=
  loaded ← call_loadTodos;
  match loaded with
  | Err err => Return (Some (ErrWrap "failed to load todos" err))
  | Ok todos =>
      let '(found, newTodos) := DeleteTodo_loop id todos in
      if negb found then Return (Some (ErrNotFound id))
      else
        saved ← call_saveTodos newTodos;
        match saved with
        | Some err => Return (Some (ErrWrap "failed to save todos" err))
        | None => Return None
        end
  end.

(** One caller at a time, on this version's [loadTodos]. *)
Fixpoint run {A} (p : prog A) (d : Disk) : go A * Disk :=
  match p with
  | Return a => (Val a, d)
  | Crash => (Panic, d)
  | CallLoad k => run (k (loadTodos d)) d
  | CallSave todos k =>
      let '(err, d') := saveTodos d todos in run (k err) d'
  end.

End operations.

End service_v1.

(** ** The HTTP handlers ([internal/handlers/todo_handlers.go]) *)

Module handlers.

(** What the handlers take from [strconv], [fmt] and the error values of
    [os] and [encoding/json]: the parse of a decimal identifier, the [%d]
    verb, and the text of a library error. *)
Class Formatting := {
  Atoi : string → option Z;
  format_d : Z → string;
  library_text : error → string;
}.

Definition StatusOK : Z := 200.
Definition StatusCreated : Z := 201.
Definition StatusBadRequest : Z := 400.
Definition StatusNotFound : Z := 404.
Definition StatusInternalServerError : Z := 500.

(** [models.TodoResponse]. *)
Record TodoResponse := mkTodoResponse { Message : string; Data : list Todo }.

(** The two ways a handler answers: [http.Error(w, msg, code)] and
    [th.writeJSONResponse(w, status, data)]. *)
Inductive Response : Type :=
| http_Error (msg : string) (code : Z)
| writeJSONResponse (status : Z) (data : TodoResponse).

Definition status_of (r : Response) : Z :=
  match r with
  | http_Error _ code => code
  | writeJSONResponse status _ => status
  end.

(** The body of a request as [readJSONRequest] meets it: [io.ReadAll]
    fails, [json.Unmarshal] fails, or the body decodes into a
    [TodoRequest]. *)
Inductive RequestBody : Type :=
| BodyUnreadable
| BodyNotJSON
| BodyJSON (req : TodoRequest).

(** [readJSONRequest]: the text of its error, or the decoded request. *)
Definition readJSONRequest (body : RequestBody) : string + TodoRequest :=
  match body with
  | BodyUnreadable => inl "failed to read request body"
  | BodyNotJSON => inl "invalid JSON format"
  | BodyJSON req => inr req
  end.

Section handlers.
Context `{Library} `{Formatting}.

(** [err.Error()] for the errors of the service. *)
Fixpoint Error (err : error) : string :=
  match err with
  | ErrEmptyContents => "contents cannot be empty"
  | ErrNotFound id => "todo with ID " +:+ format_d id +:+ " not found"
  | ErrWrap context cause => context +:+ ": " +:+ Error cause
  | _ => library_text err
  end.

Definition GetTodos : prog Response :=
  loaded ← GetAllTodos;
  match loaded with
  | Err err =>
      Return (http_Error ("Failed to load todos: " +:+ Error err)
                         StatusInternalServerError)
  | Ok todos =>
      Return (writeJSONResponse StatusOK
                (mkTodoResponse "Todos retrieved successfully" todos))
  end.

Definition CreateTodo (body : RequestBody) : prog Response :=
  match readJSONRequest body with
  | inl msg => Return (http_Error msg StatusBadRequest)
  | inr req =>
      created ← CreateTodo req;
      match created with
      | Err err => Return (http_Error (Error err) StatusBadRequest)
      | Ok newTodo =>
          Return (writeJSONResponse StatusCreated
                    (mkTodoResponse "Todo created successfully" [newTodo]))
      end
  end.

Definition UpdateTodo (idStr : string) (body : RequestBody) : prog Response :=
  match Atoi idStr with
  | None => Return (http_Error "Invalid todo ID" StatusBadRequest)
  | Some id =>
      match readJSONRequest body with
      | inl msg => Return (http_Error msg StatusBadRequest)
      | inr req =>
          updated ← UpdateTodo id req;
          match updated with
          | Err err =>
              if bool_decide
                   (Error err = "todo with ID " +:+ format_d id +:+ " not found")
              then Return (http_Error "Todo not found" StatusNotFound)
              else Return (http_Error (Error err) StatusBadRequest)
          | Ok updatedTodo =>
              Return (writeJSONResponse StatusOK
                        (mkTodoResponse "Todo updated successfully" [updatedTodo]))
          end
      end
  end.

Definition DeleteTodo (idStr : string) : prog Response :=
  match Atoi idStr with
  | None => Return (http_Error "Invalid todo ID" StatusBadRequest)
  | Some id =>
      deleted ← DeleteTodo id;
      match deleted with
      | Some err =>
          if bool_decide
               (Error err = "todo with ID " +:+ format_d id +:+ " not found")
          then Return (http_Error "Todo not found" StatusNotFound)
          else Return (http_Error ("Failed to delete todo: " +:+ Error err)
                                  StatusInternalServerError)
      | None =>
          Return (writeJSONResponse StatusOK
                    (mkTodoResponse "Todo deleted successfully" []))
      end
  end.

(** The text that [UpdateTodo] and [DeleteTodo] compare an error with. *)
Definition not_found_text (id : Z) : string :=
  "todo with ID " +:+ format_d id +:+ " not found".

End handlers.

End handlers.

(** ** Further sample values *)

Definition repeated_todos : list Todo :=
  [mkTodo 1 "a"; mkTodo 3 "b"; mkTodo 3 "c"; mkTodo 3 "d"; mkTodo 8 "e"].

(** The file, when there is one that decodes, holds a strictly ascending
    array. *)
Definition file_sorted (d : Disk) : Prop :=
  ∀ stored, file d = Some (Array stored) → strictly_ascending stored.

(** No identifier of the file is the largest [int]. *)
Definition file_below_MaxInt (d : Disk) : Prop :=
  ∀ stored, file d = Some (Array stored) →
    Forall (λ todo, ID todo < MaxInt) stored.

(** A file that does not decode, and a medium on which [os.Create] fails. *)
Definition malformed_disk : Disk := mkDisk (Some Malformed) false false None.

Definition read_only_disk : Disk :=
  mkDisk (Some (Array two_todos)) false true None.

(** A file edited by hand, with an identifier repeated. *)
Definition repeated_disk : Disk :=
  mkDisk (Some (Array repeated_todos)) false false None.

Definition sample_request : TodoRequest := mkTodoRequest 0 "  water plants ".

(** * Properties *)

(** ** The runtime operations *)

Lemma len_nonneg {A} (s : list A) : 0 ≤ len s.
Proof. unfold len. lia. Qed.

Lemma index_Val {A} (s : list A) (i : Z) :
  0 ≤ i < len s → ∃ a, s !! Z.to_nat i = Some a ∧ index s i = Val a.
Proof.
  intros Hi. unfold index. rewrite bool_decide_eq_true_2 by done.
  destruct (lookup_lt_is_Some_2 s (Z.to_nat i)) as [a Ha].
  { unfold len in Hi. lia. }
  exists a. by rewrite Ha.
Qed.

Lemma index_inv {A} (s : list A) (i : Z) (a : A) :
  index s i = Val a → 0 ≤ i < len s ∧ s !! Z.to_nat i = Some a.
Proof.
  unfold index. case_bool_decide; [|done].
  destruct (s !! Z.to_nat i) eqn:E; [|done]. by intros [= ->].
Qed.

Lemma index_nil {A} (i : Z) : index (@nil A) i = Panic.
Proof. unfold index. case_bool_decide as Hi; [|done]. unfold len in Hi. simpl in Hi. lia. Qed.

Lemma slice_Val {A} (s : list A) (lo hi : Z) :
  0 ≤ lo ≤ hi → hi ≤ len s →
  slice s lo hi = Val (take (Z.to_nat (hi - lo)) (drop (Z.to_nat lo) s)).
Proof. intros Hlo Hhi. unfold slice. rewrite bool_decide_eq_true_2; [done|lia]. Qed.

Lemma slice_prefix {A} (s : list A) (hi : Z) :
  0 ≤ hi ≤ len s → slice s 0 hi = Val (take (Z.to_nat hi) s).
Proof.
  intros. rewrite slice_Val by lia. by rewrite Z.sub_0_r.
Qed.

Lemma slice_suffix {A} (s : list A) (lo : Z) :
  0 ≤ lo ≤ len s → slice s lo (len s) = Val (drop (Z.to_nat lo) s).
Proof.
  intros. rewrite slice_Val by lia. f_equal. apply take_ge.
  rewrite length_drop. unfold len. lia.
Qed.

(** ** Ascending sequences *)

Lemma strictly_ascending_ascending todos :
  strictly_ascending todos → ascending todos.
Proof.
  induction 1 as [|a l _ IH Hhd]; constructor; [done|].
  destruct Hhd; constructor. lia.
Qed.

Lemma Sorted_lookup_rel {A} (R : relation A) `{!Transitive R} (l : list A)
    (i j : nat) (a b : A) :
  Sorted R l → (i < j)%nat → l !! i = Some a → l !! j = Some b → R a b.
Proof.
  intros Hs%Sorted_StronglySorted; [|done]. revert i j.
  induction Hs as [|x l _ IH Hall]; intros i j Hij Hi Hj; [done|].
  destruct j as [|j]; [lia|]. simpl in Hj. destruct i as [|i]; simpl in Hi.
  - injection Hi as ->. rewrite Forall_forall in Hall. apply Hall.
    by eapply list_elem_of_lookup_2.
  - apply (IH i j); [lia|done..].
Qed.

Lemma ascending_lookup todos (i j : nat) a b :
  ascending todos → (i ≤ j)%nat →
  todos !! i = Some a → todos !! j = Some b → ID a ≤ ID b.
Proof.
  intros Hs Hij Hi Hj. destruct (decide (i = j)) as [->|].
  { rewrite Hi in Hj. injection Hj as ->. lia. }
  assert (Transitive (λ a b : Todo, ID a ≤ ID b)) by (intros ???; lia).
  apply (Sorted_lookup_rel _ todos i j a b Hs); [lia|done..].
Qed.

Lemma strictly_ascending_lookup todos (i j : nat) a b :
  strictly_ascending todos → (i < j)%nat →
  todos !! i = Some a → todos !! j = Some b → ID a < ID b.
Proof.
  intros Hs Hij Hi Hj.
  assert (Transitive (λ a b : Todo, ID a < ID b)) by (intros ???; lia).
  by apply (Sorted_lookup_rel _ todos i j a b Hs).
Qed.

(** A sequence is strictly ascending as soon as its identifiers grow with
    the position. *)
Lemma strictly_ascending_intro todos :
  (∀ (i j : nat) a b, (i < j)%nat →
     todos !! i = Some a → todos !! j = Some b → ID a < ID b) →
  strictly_ascending todos.
Proof.
  induction todos as [|x l IH]; intros Hlt; [constructor|].
  constructor.
  - apply IH. intros i j a b Hij Hi Hj. apply (Hlt (S i) (S j)); [lia|done..].
  - destruct l as [|y l]; constructor. apply (Hlt 0%nat 1%nat); [lia|done..].
Qed.

(** ** Binary search *)

Lemma binarySearchTodoByID_loop_eq todos targetID l r :
  binarySearchTodoByID_loop todos targetID l r =
    if decide (l ≤ r) then
      let mid := l + (r - l) `quot` 2 in
      midTodo ← index todos mid;
      if bool_decide (ID midTodo = targetID) then Val mid
      else if bool_decide (ID midTodo < targetID) then
        binarySearchTodoByID_loop todos targetID (mid + 1) r
      else
        binarySearchTodoByID_loop todos targetID l (mid - 1)
    else Val (-1).
Proof.
  simp binarySearchTodoByID_loop. destruct (decide (l ≤ r)); by simp binarySearchTodoByID_loop.
Qed.

Lemma midpoint_bounds (l r : Z) :
  l ≤ r → l ≤ l + (r - l) `quot` 2 ≤ r.
Proof.
  intros. rewrite Z.quot_div_nonneg by lia.
  pose proof (Z.div_pos (r - l) 2). pose proof (Z.mul_div_le (r - l) 2). lia.
Qed.

Lemma midpoint_below (l r : Z) :
  l < r → l + (r - l) `quot` 2 < r.
Proof.
  intros. rewrite Z.quot_div_nonneg by lia.
  pose proof (Z.div_lt (r - l) 2). lia.
Qed.

(** Opens one turn of a search loop whose window is not empty: names the
    midpoint, reads the element there. *)
Ltac open_turn todos l r mid a Hmid Hlook Hidx :=
  set (mid := l + (r - l) `quot` 2) in *;
  assert (0 ≤ mid < len todos) as Hmid
    by (pose proof (midpoint_bounds l r); pose proof (midpoint_below l r);
        subst mid; lia);
  destruct (index_Val todos mid Hmid) as (a & Hlook & Hidx);
  rewrite Hidx; cbn [mbind go_bind].

(** The loop never panics when its window lies inside the slice, sorted or
    not; it answers -1 or a position of the window that holds the target. *)
Lemma binarySearchTodoByID_loop_safe todos targetID (n : nat) :
  ∀ l r, (Z.to_nat (r - l + 1) ≤ n)%nat → 0 ≤ l → r < len todos →
    ∃ res, binarySearchTodoByID_loop todos targetID l r = Val res ∧
           (res = -1 ∨ found_at todos targetID l r res).
Proof.
  induction n as [|n IH]; intros l r Hn Hl Hr;
    rewrite binarySearchTodoByID_loop_eq; destruct (decide (l ≤ r)) as [Hlr|Hlr];
    try (exists (-1); by auto); [lia|].
  pose proof (midpoint_bounds l r Hlr) as Hb. cbv zeta.
  open_turn todos l r mid a Hmid Hlook Hidx.
  repeat case_bool_decide.
  - exists mid. split; [done|]. right. split; [done|]. by exists a.
  - destruct (IH (mid + 1) r) as (res & -> & Hres); [lia..|].
    exists res. split; [done|]. destruct Hres as [->|[? ?]]; [by left|].
    right. split; [lia|done].
  - destruct (IH l (mid - 1)) as (res & -> & Hres); [lia..|].
    exists res. split; [done|]. destruct Hres as [->|[? ?]]; [by left|].
    right. split; [lia|done].
Qed.

(** On an ascending slice the answer -1 means that the target is nowhere,
    provided everything left of the window is smaller and everything right
    of it is larger. *)
Lemma binarySearchTodoByID_loop_absent todos targetID (n : nat) :
  ascending todos →
  ∀ l r, (Z.to_nat (r - l + 1) ≤ n)%nat → 0 ≤ l → r < len todos →
    (∀ i a, 0 ≤ i < l → todos !! Z.to_nat i = Some a → ID a < targetID) →
    (∀ i a, r < i → todos !! Z.to_nat i = Some a → targetID < ID a) →
    binarySearchTodoByID_loop todos targetID l r = Val (-1) →
    ∀ a, a ∈ todos → ID a ≠ targetID.
Proof.
  intros Hasc. induction n as [|n IH]; intros l r Hn Hl Hr Hbelow Habove;
    rewrite binarySearchTodoByID_loop_eq; destruct (decide (l ≤ r)) as [Hlr|Hlr];
    try lia.
  1, 3: intros _ a [i Hi]%list_elem_of_lookup_1;
    destruct (decide (Z.of_nat i < l));
    [ specialize (Hbelow (Z.of_nat i) a); rewrite Nat2Z.id in Hbelow;
      specialize (Hbelow ltac:(lia) Hi); lia
    | specialize (Habove (Z.of_nat i) a); rewrite Nat2Z.id in Habove;
      specialize (Habove ltac:(lia) Hi); lia ].
  pose proof (midpoint_bounds l r Hlr) as Hb. cbv zeta.
  open_turn todos l r mid a Hmid Hlook Hidx.
  repeat case_bool_decide.
  - intros [= ?]. lia.
  - apply IH; [lia..| |done].
    intros i b Hi Hb'. enough (ID b ≤ ID a) by lia.
    apply (ascending_lookup todos (Z.to_nat i) (Z.to_nat mid)); [done|lia|done..].
  - apply IH; [lia..|done|].
    intros i b Hi Hb'. enough (ID a ≤ ID b) by lia.
    apply (ascending_lookup todos (Z.to_nat mid) (Z.to_nat i)); [done|lia|done..].
Qed.

(** [binarySearchTodoByID] on any slice: no panic, and the answer is -1 or
    a valid position holding the target. *)
Lemma binarySearchTodoByID_safe todos targetID :
  ∃ res, binarySearchTodoByID todos targetID = Val res ∧
         (res = -1 ∨ found_at todos targetID 0 (len todos - 1) res).
Proof.
  unfold binarySearchTodoByID.
  apply (binarySearchTodoByID_loop_safe _ _ (Z.to_nat (len todos - 1 - 0 + 1))); lia.
Qed.

Lemma binarySearchTodoByID_absent todos targetID :
  ascending todos →
  binarySearchTodoByID todos targetID = Val (-1) →
  ∀ a, a ∈ todos → ID a ≠ targetID.
Proof.
  intros Hasc. unfold binarySearchTodoByID.
  apply (binarySearchTodoByID_loop_absent _ _ (Z.to_nat (len todos - 1 - 0 + 1)));
    [done|lia..| |].
  - intros i a ?. lia.
  - intros i a Hi Hlook. apply lookup_lt_Some in Hlook. unfold len in Hi. lia.
Qed.

(** On an ascending slice, a target that occurs is found. *)
Lemma binarySearchTodoByID_present todos targetID :
  ascending todos → (∃ a, a ∈ todos ∧ ID a = targetID) →
  ∃ res, binarySearchTodoByID todos targetID = Val res ∧
         found_at todos targetID 0 (len todos - 1) res.
Proof.
  intros Hasc (a & Ha & Hid).
  destruct (binarySearchTodoByID_safe todos targetID) as (res & Hres & [->|Hfound]).
  - by destruct (binarySearchTodoByID_absent _ _ Hasc Hres a Ha).
  - by exists res.
Qed.

(** C1. For every sequence that is strictly ascending by identifier and
    every identifier [targetID], [binarySearchTodoByID] returns a position
    whose record has that identifier, or it returns -1; and it returns -1
    if and only if no record of the sequence has the identifier. *)
Theorem binarySearchTodoByID_correct (todos : list Todo) (targetID : Z) :
  strictly_ascending todos →
  ∃ res, binarySearchTodoByID todos targetID = Val res ∧
    (res = -1 ∨
     (0 ≤ res < len todos ∧ ∃ a, index todos res = Val a ∧ ID a = targetID)) ∧
    (res = -1 ↔ ∀ a, a ∈ todos → ID a ≠ targetID).
Proof.
  intros Hasc%strictly_ascending_ascending.
  destruct (binarySearchTodoByID_safe todos targetID) as (res & Hres & Hcases).
  exists res. split; [done|]. split.
  - destruct Hcases as [->|[? ?]]; [by left|]. right. split; [lia|done].
  - split.
    + intros ->. by apply binarySearchTodoByID_absent.
    + intros Hno. destruct Hcases as [->|[_ (a & Ha & Hid)]]; [done|].
      apply index_inv in Ha as [_ Ha]. apply list_elem_of_lookup_2 in Ha.
      by destruct (Hno a Ha).
Qed.

Lemma binarySearchTodoByID_correct_witness :
  strictly_ascending five_todos ∧
  ∃ res, binarySearchTodoByID five_todos 7 = Val res ∧
    (res = -1 ∨
     (0 ≤ res < len five_todos ∧ ∃ a, index five_todos res = Val a ∧ ID a = 7)) ∧
    (res = -1 ↔ ∀ a, a ∈ five_todos → ID a ≠ 7).
Proof.
  assert (strictly_ascending five_todos) as Hasc
    by (apply (bool_decide_unpack _); vm_compute; exact I).
  split; [exact Hasc|]. exact (binarySearchTodoByID_correct five_todos 7 Hasc).
Defined.

(** ** Removal *)

Lemma removeAt_Val todos (i : Z) :
  0 ≤ i < len todos → removeAt todos i = Val (delete (Z.to_nat i) todos).
Proof.
  intros Hi. unfold removeAt, make_cap.
  rewrite bool_decide_eq_true_2 by lia. cbn [mbind go_bind].
  rewrite slice_prefix by lia. cbn [mbind go_bind].
  rewrite slice_suffix by lia. cbn [mbind go_bind].
  rewrite delete_take_drop. do 3 f_equal. lia.
Qed.

Lemma strictly_ascending_delete todos (i : nat) :
  strictly_ascending todos → strictly_ascending (delete i todos).
Proof.
  intros Hasc. apply strictly_ascending_intro. intros j k a b Hjk Hj Hk.
  destruct (decide (j < i)%nat), (decide (k < i)%nat).
  - rewrite list_lookup_delete_lt in Hj, Hk by done.
    by apply (strictly_ascending_lookup todos j k).
  - rewrite list_lookup_delete_lt in Hj by done.
    rewrite list_lookup_delete_ge in Hk by lia.
    apply (strictly_ascending_lookup todos j (S k)); [done|lia|done..].
  - lia.
  - rewrite list_lookup_delete_ge in Hj, Hk by lia.
    apply (strictly_ascending_lookup todos (S j) (S k)); [done|lia|done..].
Qed.

(** In a strictly ascending sequence a record shares its identifier with no
    record at another position. *)
Lemma strictly_ascending_delete_fresh todos (i : nat) removed :
  strictly_ascending todos → todos !! i = Some removed →
  ∀ a, a ∈ delete i todos → ID a ≠ ID removed.
Proof.
  intros Hasc Hi a [j Hj]%list_elem_of_lookup_1.
  destruct (decide (j < i)%nat).
  - rewrite list_lookup_delete_lt in Hj by done.
    pose proof (strictly_ascending_lookup todos j i a removed Hasc
                  ltac:(lia) Hj Hi). lia.
  - rewrite list_lookup_delete_ge in Hj by lia.
    pose proof (strictly_ascending_lookup todos i (S j) removed a Hasc
                  ltac:(lia) Hi Hj). lia.
Qed.

(** C7. For every strictly ascending sequence and every valid position,
    the excision of [DeleteTodo] at that position succeeds, yields the
    sequence without that element (the others in their order), which is
    still strictly ascending, and a search for the removed record's
    identifier in it answers -1. *)
Theorem removeAt_then_find_absent (todos : list Todo) (i : Z) :
  strictly_ascending todos → 0 ≤ i < len todos →
  ∃ removed rest,
    index todos i = Val removed ∧
    removeAt todos i = Val rest ∧
    rest = delete (Z.to_nat i) todos ∧
    strictly_ascending rest ∧
    binarySearchTodoByID rest (ID removed) = Val (-1).
Proof.
  intros Hasc Hi. destruct (index_Val todos i Hi) as (removed & Hlook & Hidx).
  exists removed, (delete (Z.to_nat i) todos).
  split; [done|]. split; [by apply removeAt_Val|]. split; [done|].
  split; [by apply strictly_ascending_delete|].
  destruct (binarySearchTodoByID_safe (delete (Z.to_nat i) todos) (ID removed))
    as (res & Hres & [->|[_ (a & Ha & Hid)]]); [done|].
  apply index_inv in Ha as [_ Ha]. apply list_elem_of_lookup_2 in Ha.
  by destruct (strictly_ascending_delete_fresh todos _ removed Hasc Hlook a Ha).
Qed.

Lemma removeAt_then_find_absent_witness :
  strictly_ascending five_todos ∧ 0 ≤ 2 < len five_todos ∧
  ∃ removed rest,
    index five_todos 2 = Val removed ∧
    removeAt five_todos 2 = Val rest ∧
    rest = delete (Z.to_nat 2) five_todos ∧
    strictly_ascending rest ∧
    binarySearchTodoByID rest (ID removed) = Val (-1).
Proof.
  assert (strictly_ascending five_todos) as Hasc
    by (apply (bool_decide_unpack _); vm_compute; exact I).
  assert (0 ≤ 2 < len five_todos) as Hi by (vm_compute; split; congruence).
  split; [exact Hasc|]. split; [exact Hi|].
  exact (removeAt_then_find_absent five_todos 2 Hasc Hi).
Defined.

(** ** Running the operations *)

Section run_lemmas.
Context `{Library}.

Lemma run_bind {A B} (p : prog A) (f : A → prog B) (d : Disk) :
  run (p ≫= f) d =
    match run p d with
    | (Val a, d') => run (f a) d'
    | (Panic, d') => (Panic, d')
    end.
Proof.
  revert d. induction p as [a| |k IH|todos k IH]; intros d; cbn.
  - done.
  - done.
  - apply IH.
  - destruct (saveTodos d todos) as [err d']. apply IH.
Qed.

(** C10. [DeleteTodo] never panics, whatever the file holds and whatever
    identifier is asked for. The search on an empty slice answers -1, and
    every element access on an empty slice panics, so it read no element.
    On any slice the search ends without a panic, and an answer other
    than -1 is a valid position; the slice is then not empty, so the
    capacity [len(todos)-1] is not negative and the excision succeeds. *)
Theorem DeleteTodo_never_panics (d : Disk) (id : Z) :
  (binarySearchTodoByID [] id = Val (-1) ∧
   ∀ i, index ([] : list Todo) i = Panic) ∧
  (∀ todos, ∃ res, binarySearchTodoByID todos id = Val res ∧
     (res ≠ -1 →
      0 ≤ res < len todos ∧ 0 ≤ len todos - 1 ∧
      make_cap (A:=Todo) (len todos - 1) = Val [] ∧
      removeAt todos res = Val (delete (Z.to_nat res) todos))) ∧
  (∃ outcome d', run (DeleteTodo id) d = (Val outcome, d')).
Proof.
  split; [|split].
  - split; [done|]. apply index_nil.
  - intros todos.
    destruct (binarySearchTodoByID_safe todos id) as (res & Hres & Hcases).
    exists res. split; [done|]. intros Hne.
    destruct Hcases as [->|[Hres' _]]; [done|].
    split; [lia|]. split; [lia|]. split.
    + unfold make_cap. rewrite bool_decide_eq_true_2; [done|lia].
    + apply removeAt_Val. lia.
  - unfold DeleteTodo. cbn. destruct (loadTodos d) as [todos|err]; cbn; [|eauto].
    destruct (binarySearchTodoByID_safe todos id) as (res & -> & Hcases). cbn.
    case_bool_decide as Hres; cbn; [eauto|].
    destruct Hcases as [->|[Hres' _]]; [done|].
    rewrite removeAt_Val by lia. cbn.
    destruct (saveTodos d _) as [[err|] d']; cbn; eauto.
Qed.

End run_lemmas.

(** ** Sorted insertion *)

Lemma insertTodoSorted_loop_eq todos newID l r :
  insertTodoSorted_loop todos newID l r =
    if decide (l < r) then
      let mid := l + (r - l) `quot` 2 in
      midTodo ← index todos mid;
      if bool_decide (ID midTodo < newID) then
        insertTodoSorted_loop todos newID (mid + 1) r
      else
        insertTodoSorted_loop todos newID l mid
    else Val l.
Proof.
  simp insertTodoSorted_loop. destruct (decide (l < r)); by simp insertTodoSorted_loop.
Qed.

Lemma insertTodoSorted_loop_spec todos newID (n : nat) :
  ascending todos →
  ∀ l r, (Z.to_nat (r - l) ≤ n)%nat → 0 ≤ l ≤ r → r ≤ len todos →
    (∀ i a, 0 ≤ i < l → todos !! Z.to_nat i = Some a → ID a < newID) →
    (∀ i a, r ≤ i → todos !! Z.to_nat i = Some a → newID ≤ ID a) →
    ∃ pos, insertTodoSorted_loop todos newID l r = Val pos ∧
           insertion_point todos newID pos.
Proof.
  intros Hasc. induction n as [|n IH]; intros l r Hn Hl Hr Hbelow Habove;
    rewrite insertTodoSorted_loop_eq; destruct (decide (l < r)) as [Hlr|Hlr];
    try lia.
  1, 3: exists l; split; [done|]; split; [lia|]; split; [done|];
    intros i a Hi; apply Habove; lia.
  pose proof (midpoint_bounds l r ltac:(lia)) as Hb.
  pose proof (midpoint_below l r Hlr) as Hb'. cbv zeta.
  open_turn todos l r mid a Hmid Hlook Hidx.
  case_bool_decide.
  - apply IH; [lia..| |done].
    intros i b Hi Hlook'. enough (ID b ≤ ID a) by lia.
    apply (ascending_lookup todos (Z.to_nat i) (Z.to_nat mid)); [done|lia|done..].
  - apply IH; [lia..|done|].
    intros i b Hi Hlook'. enough (ID a ≤ ID b) by lia.
    apply (ascending_lookup todos (Z.to_nat mid) (Z.to_nat i)); [done|lia|done..].
Qed.

(** The two [copy] calls and the store of [insertTodoSorted], on lists. *)
Lemma copy_into_Val {A} (dst : list A) (lo hi : Z) (src : list A) :
  0 ≤ lo ≤ hi → hi ≤ len dst →
  copy_into dst lo hi src =
    Val (take (Z.to_nat lo) dst
         ++ take (Nat.min (Z.to_nat (hi - lo)) (length src)) src
         ++ drop (Z.to_nat lo + Nat.min (Z.to_nat (hi - lo)) (length src)) dst).
Proof.
  intros Hlo Hhi. unfold copy_into. rewrite slice_Val by done. cbn [mbind go_bind].
  rewrite length_take, length_drop.
  replace (Z.to_nat (hi - lo) `min` (length dst - Z.to_nat lo))%nat
    with (Z.to_nat (hi - lo)) by (unfold len in *; lia).
  done.
Qed.

Lemma insertTodoSorted_assemble todos newTodo (pos : Z) :
  0 ≤ pos ≤ len todos →
  (result ← make_len zeroTodo (len todos + 1);
   head ← slice todos 0 pos;
   result ← copy_into result 0 pos head;
   result ← store result pos newTodo;
   tail ← slice todos pos (len todos);
   copy_into result (pos + 1) (len result) tail)
  = Val (take (Z.to_nat pos) todos ++ newTodo :: drop (Z.to_nat pos) todos).
Proof.
  intros Hpos. pose proof (len_nonneg todos) as Hlen.
  set (p := Z.to_nat pos). set (n := length todos).
  assert (p ≤ n)%nat as Hpn by (unfold len in *; lia).
  unfold make_len. rewrite bool_decide_eq_true_2 by lia. cbn [mbind go_bind].
  rewrite slice_prefix by lia. cbn [mbind go_bind]. fold p.
  assert (len (replicate (Z.to_nat (len todos + 1)) zeroTodo) = len todos + 1) as Hl0.
  { unfold len. rewrite length_replicate. lia. }
  rewrite copy_into_Val by lia. cbn [mbind go_bind].
  rewrite Z.sub_0_r. change (Z.to_nat 0) with 0%nat. fold p.
  rewrite take_0, length_take, Nat.add_0_l, app_nil_l.
  replace (p `min` (p `min` length todos))%nat with p by lia.
  rewrite take_take, Nat.min_id, drop_replicate.
  replace (Z.to_nat (len todos + 1) - p)%nat with (S (n - p)) by (unfold len; lia).
  unfold store.
  assert (len (take p todos ++ replicate (S (n - p)) zeroTodo) = len todos + 1) as Hl1.
  { unfold len. rewrite length_app, length_take, length_replicate. lia. }
  rewrite bool_decide_eq_true_2 by lia. cbn [mbind go_bind]. fold p.
  replace (<[p:=newTodo]> (take p todos ++ replicate (S (n - p)) zeroTodo))
    with (take p todos ++ newTodo :: replicate (n - p) zeroTodo).
  2:{ rewrite insert_app_r_alt by (rewrite length_take; lia).
      rewrite length_take. by replace (p - p `min` length todos)%nat with 0%nat by lia. }
  rewrite slice_suffix by lia. cbn [mbind go_bind]. fold p.
  assert (len (take p todos ++ newTodo :: replicate (n - p) zeroTodo) = len todos + 1)
    as Hl2.
  { unfold len. rewrite length_app, length_take. cbn. rewrite length_replicate. lia. }
  rewrite copy_into_Val by lia. f_equal.
  rewrite Hl2, length_drop.
  replace (Z.to_nat (pos + 1)) with (S p) by lia.
  replace (Z.to_nat (len todos + 1 - (pos + 1)) `min` (length todos - p))%nat
    with (n - p)%nat by (unfold len; lia).
  assert (length (take p todos) = p) as Htk by (rewrite length_take; lia).
  rewrite take_app_ge, drop_app_ge by lia. rewrite Htk.
  replace (S p - p)%nat with 1%nat by lia.
  replace (S p + (n - p) - p)%nat with (S (n - p)) by lia.
  cbn [take drop]. rewrite take_0.
  rewrite (drop_ge (replicate _ _)) by (rewrite length_replicate; lia).
  rewrite (take_ge (drop p todos)) by (rewrite length_drop; lia).
  by rewrite app_nil_r, <-app_assoc.
Qed.

Lemma index_lookup {A} (s : list A) (i : Z) (a : A) :
  0 ≤ i → s !! Z.to_nat i = Some a → index s i = Val a.
Proof.
  intros Hi Hlook. pose proof (lookup_lt_Some _ _ _ Hlook).
  unfold index. rewrite bool_decide_eq_true_2 by (unfold len; lia). by rewrite Hlook.
Qed.

Lemma lookup_inserted_at_lt {A} (s : list A) (p i : nat) (x : A) :
  (p ≤ length s)%nat → (i < p)%nat → inserted_at s p x !! i = s !! i.
Proof.
  intros Hp Hi. unfold inserted_at.
  rewrite lookup_app_l by (rewrite length_take; lia). by apply lookup_take_lt.
Qed.

Lemma lookup_inserted_at_eq {A} (s : list A) (p : nat) (x : A) :
  (p ≤ length s)%nat → inserted_at s p x !! p = Some x.
Proof.
  intros Hp. unfold inserted_at. apply list_lookup_middle. rewrite length_take. lia.
Qed.

Lemma lookup_inserted_at_gt {A} (s : list A) (p i : nat) (x : A) :
  (p ≤ length s)%nat → (p ≤ i)%nat → inserted_at s p x !! S i = s !! i.
Proof.
  intros Hp Hi. unfold inserted_at.
  rewrite lookup_app_r by (rewrite length_take; lia).
  rewrite length_take. replace (S i - p `min` length s)%nat with (S (i - p)) by lia.
  rewrite lookup_cons_ne_0 by lia. rewrite lookup_drop. f_equal. lia.
Qed.

Lemma inserted_at_Permutation {A} (s : list A) (p : nat) (x : A) :
  inserted_at s p x ≡ₚ x :: s.
Proof.
  unfold inserted_at. rewrite <-Permutation_middle. by rewrite take_drop.
Qed.

Lemma length_inserted_at {A} (s : list A) (p : nat) (x : A) :
  length (inserted_at s p x) = S (length s).
Proof. by rewrite inserted_at_Permutation. Qed.

Lemma strictly_ascending_NoDup todos : strictly_ascending todos → NoDup todos.
Proof.
  intros Hasc. apply NoDup_alt. intros i j a Hi Hj.
  destruct (Nat.lt_trichotomy i j) as [Hlt|[->|Hlt]]; [|done|].
  - pose proof (strictly_ascending_lookup todos i j a a Hasc Hlt Hi Hj). lia.
  - pose proof (strictly_ascending_lookup todos j i a a Hasc Hlt Hj Hi). lia.
Qed.

Lemma strictly_ascending_inserted_at todos newTodo (pos : Z) :
  strictly_ascending todos →
  (∀ a, a ∈ todos → ID a ≠ ID newTodo) →
  insertion_point todos (ID newTodo) pos →
  strictly_ascending (inserted_at todos (Z.to_nat pos) newTodo).
Proof.
  intros Hasc Hfresh (Hpos & Hbelow & Habove).
  set (p := Z.to_nat pos). assert (p ≤ length todos)%nat as Hp by (unfold len in *; lia).
  assert (∀ i a, (i < p)%nat → todos !! i = Some a → ID a < ID newTodo) as Hlo.
  { intros i a Hi Hlook. apply (Hbelow (Z.of_nat i)); [lia|]. by rewrite Nat2Z.id. }
  assert (∀ i a, (p ≤ i)%nat → todos !! i = Some a → ID newTodo < ID a) as Hhi.
  { intros i a Hi Hlook. pose proof (Hfresh a (list_elem_of_lookup_2 _ _ _ Hlook)).
    enough (ID newTodo ≤ ID a) by lia.
    apply (Habove (Z.of_nat i)); [lia|]. by rewrite Nat2Z.id. }
  apply strictly_ascending_intro. intros i j a b Hij Hi Hj.
  destruct j as [|j]; [lia|].
  destruct (Nat.lt_trichotomy i p) as [Hip|[->|Hip]].
  - rewrite lookup_inserted_at_lt in Hi by done.
    destruct (Nat.lt_trichotomy (S j) p) as [Hjp|[Hjp|Hjp]].
    + rewrite lookup_inserted_at_lt in Hj by done.
      by apply (strictly_ascending_lookup todos i (S j)).
    + rewrite Hjp, lookup_inserted_at_eq in Hj by done. injection Hj as <-.
      by apply (Hlo i).
    + rewrite lookup_inserted_at_gt in Hj by lia.
      apply (strictly_ascending_lookup todos i j); [done|lia|done..].
  - rewrite lookup_inserted_at_eq in Hi by done. injection Hi as <-.
    rewrite lookup_inserted_at_gt in Hj by lia. apply (Hhi j); [lia|done].
  - destruct i as [|i]; [lia|].
    rewrite lookup_inserted_at_gt in Hi, Hj by lia.
    apply (strictly_ascending_lookup todos i j); [done|lia|done..].
Qed.

Lemma insertTodoSorted_Val todos newTodo :
  ascending todos →
  ∃ pos, insertion_point todos (ID newTodo) pos ∧
         insertTodoSorted todos newTodo
           = Val (inserted_at todos (Z.to_nat pos) newTodo).
Proof.
  intros Hasc. unfold insertTodoSorted. case_bool_decide as Hlen.
  - destruct todos as [|? ?]; [|done]. exists 0. split; [|done].
    split; [done|]. split; intros i a _ Hlook; by rewrite lookup_nil in Hlook.
  - pose proof (len_nonneg todos).
    destruct (insertTodoSorted_loop_spec todos (ID newTodo)
                (Z.to_nat (len todos - 0)) Hasc 0 (len todos))
      as (pos & Hloop & Hpoint); [lia..| | |].
    + intros i a ?. lia.
    + intros i a Hi Hlook%lookup_lt_Some. unfold len in Hi. lia.
    + exists pos. split; [done|]. rewrite Hloop. cbn [mbind go_bind].
      apply insertTodoSorted_assemble. by destruct Hpoint.
Qed.

(** C2. For every strictly ascending sequence and every record whose
    identifier does not occur in it, [insertTodoSorted] returns a strictly
    ascending sequence, one longer, that holds the record and the elements
    of the sequence, each exactly once; the record sits at the insertion
    point of its identifier, the elements before that point are unchanged
    and the elements from that point on have moved right by one. *)
Theorem insertTodoSorted_correct (todos : list Todo) (newTodo : Todo) :
  strictly_ascending todos →
  (∀ a, a ∈ todos → ID a ≠ ID newTodo) →
  ∃ result pos,
    insertTodoSorted todos newTodo = Val result ∧
    strictly_ascending result ∧
    len result = len todos + 1 ∧
    result ≡ₚ newTodo :: todos ∧ NoDup result ∧
    insertion_point todos (ID newTodo) pos ∧
    (∀ i, 0 ≤ i < pos → index result i = index todos i) ∧
    index result pos = Val newTodo ∧
    (∀ i, pos ≤ i < len todos → index result (i + 1) = index todos i).
Proof.
  intros Hasc Hfresh.
  destruct (insertTodoSorted_Val todos newTodo) as (pos & Hpoint & Hval);
    [by apply strictly_ascending_ascending|].
  pose proof Hpoint as (Hpos & _ & _).
  assert (Z.to_nat pos ≤ length todos)%nat as Hp by (unfold len in *; lia).
  pose proof (strictly_ascending_inserted_at _ _ _ Hasc Hfresh Hpoint) as Hasc'.
  exists (inserted_at todos (Z.to_nat pos) newTodo), pos.
  split; [done|]. split; [done|].
  split; [unfold len; rewrite length_inserted_at; lia|].
  split; [apply inserted_at_Permutation|].
  split; [by apply strictly_ascending_NoDup|]. split; [done|].
  split; [|split].
  - intros i Hi. destruct (index_Val todos i) as (a & Hlook & ->); [lia|].
    apply index_lookup; [lia|]. rewrite lookup_inserted_at_lt; [done..|lia].
  - apply index_lookup; [lia|]. by apply lookup_inserted_at_eq.
  - intros i Hi. destruct (index_Val todos i) as (a & Hlook & ->); [lia|].
    apply index_lookup; [lia|]. replace (Z.to_nat (i + 1)) with (S (Z.to_nat i)) by lia.
    rewrite lookup_inserted_at_gt; [done..|lia].
Qed.

Lemma insertTodoSorted_correct_witness :
  let todos := three_todos in
  let newTodo := mkTodo 5 "Fifth todo" in
  strictly_ascending todos ∧
  (∀ a, a ∈ todos → ID a ≠ ID newTodo) ∧
  ∃ result pos,
    insertTodoSorted todos newTodo = Val result ∧
    strictly_ascending result ∧
    len result = len todos + 1 ∧
    result ≡ₚ newTodo :: todos ∧ NoDup result ∧
    insertion_point todos (ID newTodo) pos ∧
    (∀ i, 0 ≤ i < pos → index result i = index todos i) ∧
    index result pos = Val newTodo ∧
    (∀ i, pos ≤ i < len todos → index result (i + 1) = index todos i).
Proof.
  intros todos newTodo.
  assert (strictly_ascending todos) as Hasc
    by (apply (bool_decide_unpack _); vm_compute; exact I).
  assert (∀ a, a ∈ todos → ID a ≠ ID newTodo) as Hfresh.
  { apply Forall_forall. apply (bool_decide_unpack _). vm_compute. exact I. }
  split; [exact Hasc|]. split; [exact Hfresh|].
  exact (insertTodoSorted_correct todos newTodo Hasc Hfresh).
Defined.

(** ** ID allocator *)

Lemma max_from_max (a b : Z) todos :
  max_from (Z.max a b) todos = Z.max b (max_from a todos).
Proof. unfold max_from. induction todos as [|t l IH]; cbn; lia. Qed.

Lemma getNextID_fold todos (m : Z) :
  fold_left (λ maxID todo, if bool_decide (ID todo > maxID) then ID todo else maxID)
            todos m = max_from m todos.
Proof.
  revert m. induction todos as [|t l IH]; intros m; [done|].
  cbn [fold_left]. rewrite IH. change (max_from m (t :: l)) with (Z.max (ID t) (max_from m l)).
  case_bool_decide.
  - replace (ID t) with (Z.max m (ID t)) at 1 by lia. apply max_from_max.
  - replace m with (Z.max m (ID t)) at 1 by lia. apply max_from_max.
Qed.

Lemma max_from_0_max_id todos : max_from 0 todos = Z.max 0 (max_id todos).
Proof.
  destruct todos as [|t l]; [done|].
  change (max_from 0 (t :: l)) with (Z.max (ID t) (max_from 0 l)).
  change (max_id (t :: l)) with (max_from (ID t) l).
  by rewrite <-(max_from_max 0 (ID t)), <-(max_from_max (ID t) 0), Z.max_comm.
Qed.

Lemma max_from_bound (m bound : Z) todos :
  m < bound → Forall (λ todo, ID todo < bound) todos → max_from m todos < bound.
Proof. intros Hm. unfold max_from. induction 1; cbn; lia. Qed.

Lemma max_from_ge (m : Z) todos : m ≤ max_from m todos.
Proof. unfold max_from. induction todos; cbn; lia. Qed.

Lemma int_wrap_id (z : Z) : MinInt ≤ z ≤ MaxInt → int_wrap z = z.
Proof.
  unfold MinInt, MaxInt, int_wrap. intros Hz.
  rewrite Z.mod_small; lia.
Qed.

Lemma getNextID_no_overflow todos :
  Forall (λ todo, ID todo < MaxInt) todos →
  getNextID todos = 1 + Z.max 0 (max_id todos).
Proof.
  intros Hall. unfold getNextID. cbv zeta. rewrite getNextID_fold.
  pose proof (max_from_bound 0 MaxInt todos ltac:(done) Hall).
  pose proof (max_from_ge 0 todos).
  rewrite int_wrap_id by (unfold MinInt, MaxInt in *; lia).
  rewrite max_from_0_max_id. lia.
Qed.

(** At the largest [int] the addition wraps around. *)
Lemma getNextID_overflow :
  getNextID [mkTodo MaxInt "last"] ≠ nextId [mkTodo MaxInt "last"].
Proof. vm_compute. discriminate. Qed.

(** Identifiers below the starting value 0 of the running maximum do not
    count: the allocator answers 1. *)
Lemma getNextID_negative :
  getNextID [mkTodo (-5) "below zero"] = 1 ∧ nextId [mkTodo (-5) "below zero"] = -4.
Proof. by vm_compute. Qed.

(** ** Persistence layer *)

Lemma Sorted_weaken {A} (R1 R2 : relation A) (l : list A) :
  (∀ a b, R1 a b → R2 a b) → Sorted R1 l → Sorted R2 l.
Proof.
  intros Himp. induction 1 as [|a l _ IH Hhd]; constructor; [done|].
  destruct Hhd; constructor. by apply Himp.
Qed.

(** Two records of a strictly ascending sequence with the same identifier
    are the same record. *)
Lemma strictly_ascending_ID_inj todos a b :
  strictly_ascending todos → a ∈ todos → b ∈ todos → ID a = ID b → a = b.
Proof.
  intros Hasc [i Hi]%list_elem_of_lookup_1 [j Hj]%list_elem_of_lookup_1 Hid.
  destruct (Nat.lt_trichotomy i j) as [Hlt|[->|Hlt]].
  - pose proof (strictly_ascending_lookup todos i j a b Hasc Hlt Hi Hj). lia.
  - congruence.
  - pose proof (strictly_ascending_lookup todos j i b a Hasc Hlt Hj Hi). lia.
Qed.

#[local] Arguments binarySearchTodoByID : simpl never.
#[local] Arguments insertTodoSorted : simpl never.
#[local] Arguments removeAt : simpl never.
#[local] Arguments getNextID : simpl never.
#[local] Arguments json_text : simpl never.

(** ** The JSON codec *)

(** The coercion leaves valid UTF-8 as it is. *)
Lemma json_scan_valid n s : valid_scan n s = true → json_scan n s = s.
Proof.
  revert n. induction s as [|c r IH]; intros n; [done|].
  cbn [valid_scan json_scan]. destruct n as [|n].
  - destruct (utf8_size (String c r)); [done|]. intros Hv. f_equal. auto.
  - intros Hv. f_equal. auto.
Qed.

Lemma json_text_valid s : valid_UTF8 s → json_text s = s.
Proof. apply json_scan_valid. Qed.

(** The size of a sequence depends on its own bytes only, which the scan
    copies. *)
Lemma utf8_size_json_scan c r n :
  utf8_size (String c r) = S n → utf8_size (String c (json_scan n r)) = S n.
Proof.
  unfold utf8_size. destruct (bool_decide (byte_of c < 128)); [done|].
  destruct (utf8_first (byte_of c)) as [[[size lo] hi]|]; [|done].
  destruct r as [|c1 r1]; [done|].
  destruct (in_range lo hi c1) eqn:H1; cbn [negb]; [|done].
  destruct (bool_decide (size = 2%nat)).
  { intros [= <-]. cbn. by rewrite H1. }
  destruct r1 as [|c2 r2]; [done|].
  destruct (in_range 128 191 c2) eqn:H2; cbn [negb]; [|done].
  destruct (bool_decide (size = 3%nat)).
  { intros [= <-]. cbn. by rewrite H1, H2. }
  destruct r2 as [|c3 r3]; [done|].
  destruct (in_range 128 191 c3) eqn:H3; [|done].
  intros [= <-]. cbn. by rewrite H1, H2, H3.
Qed.

(** What the coercion returns is valid UTF-8. *)
Lemma valid_scan_json_scan n s : valid_scan n (json_scan n s) = true.
Proof.
  revert n. induction s as [|c r IH]; intros n; [done|].
  cbn [json_scan]. destruct n as [|n]; [|apply IH].
  destruct (utf8_size (String c r)) as [|n] eqn:Hsize.
  - apply (IH 0%nat).
  - cbn [valid_scan]. rewrite (utf8_size_json_scan _ _ _ Hsize). apply IH.
Qed.

Lemma valid_UTF8_json_text s : valid_UTF8 (json_text s).
Proof. apply valid_scan_json_scan. Qed.

Lemma json_text_idemp s : json_text (json_text s) = json_text s.
Proof. apply json_text_valid, valid_UTF8_json_text. Qed.

Lemma json_record_valid todo :
  valid_UTF8 (Contents todo) → json_record todo = todo.
Proof.
  destruct todo as [id c]. unfold json_record. cbn. intros Hv.
  by rewrite json_text_valid.
Qed.

Lemma fmap_json_record_valid todos :
  valid_contents todos → json_record <$> todos = todos.
Proof.
  induction 1 as [|todo todos Hv _ IH]; [done|].
  cbn. by rewrite json_record_valid, IH.
Qed.

Lemma valid_contents_json_record (todos : list Todo) :
  valid_contents (json_record <$> todos).
Proof.
  apply Forall_fmap, Forall_true. intros todo. apply valid_UTF8_json_text.
Qed.

Lemma fmap_json_record_idemp (todos : list Todo) :
  json_record <$> (json_record <$> todos) = json_record <$> todos.
Proof. apply fmap_json_record_valid, valid_contents_json_record. Qed.

Lemma Sorted_json_record (R : relation Z) (todos : list Todo) :
  Sorted (λ a b, R (ID a) (ID b)) todos →
  Sorted (λ a b, R (ID a) (ID b)) (json_record <$> todos).
Proof.
  induction 1 as [|a l _ IH Hhd]; cbn; constructor; [done|].
  destruct Hhd; cbn; by constructor.
Qed.

Lemma strictly_ascending_json_record todos :
  strictly_ascending todos → strictly_ascending (json_record <$> todos).
Proof. apply (Sorted_json_record Z.lt). Qed.

Lemma valid_contents_perm todos1 todos2 :
  todos1 ≡ₚ todos2 → valid_contents todos1 → valid_contents todos2.
Proof. unfold valid_contents. by intros ->. Qed.

Section persistence.
Context `{Library}.

Lemma sort_Slice_ascending todos : ascending (sort_Slice todos).
Proof.
  eapply Sorted_weaken; [|apply sort_Slice_sorted].
  intros a b. unfold less_ID. rewrite bool_decide_eq_false. lia.
Qed.

(** Sorting leaves a strictly ascending sequence as it is, whichever
    order the sort gives to equal keys: there are none. *)
Lemma sort_Slice_strictly_ascending todos :
  strictly_ascending todos → sort_Slice todos = todos.
Proof.
  intros Hasc.
  assert (Transitive (λ a b : Todo, ID a ≤ ID b)) by (intros ???; lia).
  apply (StronglySorted_unique_strong (λ a b, ID a ≤ ID b)).
  - intros a b Ha Hb Hab Hba. rewrite sort_Slice_perm in Ha.
    apply (strictly_ascending_ID_inj todos); [done..|lia].
  - apply Sorted_StronglySorted; [done|]. apply sort_Slice_ascending.
  - apply Sorted_StronglySorted; [done|]. by apply strictly_ascending_ascending.
  - apply sort_Slice_perm.
Qed.

Lemma sort_Slice_nil_inv todos : sort_Slice todos = [] → todos = [].
Proof.
  intros Hnil. apply Permutation_nil_r. by rewrite <-Hnil, sort_Slice_perm.
Qed.

Lemma loadTodos_ascending d todos : loadTodos d = Ok todos → ascending todos.
Proof.
  unfold loadTodos. destruct (open_fault d); [done|].
  destruct (file d) as [[|stored]|]; cbn; intros [= <-].
  - apply sort_Slice_ascending.
  - constructor.
Qed.

(** What a load returns has been through the decoder. *)
Lemma loadTodos_valid_contents d todos :
  loadTodos d = Ok todos → valid_contents todos.
Proof.
  unfold loadTodos. destruct (open_fault d); [done|].
  destruct (file d) as [[|stored]|]; cbn; intros [= <-].
  - eapply valid_contents_perm; [symmetry; apply sort_Slice_perm|].
    apply valid_contents_json_record.
  - constructor.
Qed.

Lemma loadTodos_json_record d todos :
  loadTodos d = Ok todos → json_record <$> todos = todos.
Proof. intros Hload. by eapply fmap_json_record_valid, loadTodos_valid_contents. Qed.

(** Valid text is written as it is. *)
Lemma json_encode_valid todos :
  valid_contents todos → json_encode todos = Array todos.
Proof. intros Hv. unfold json_encode. by rewrite fmap_json_record_valid. Qed.

Lemma loadTodos_set_file d todos :
  open_fault d = false → strictly_ascending todos →
  loadTodos (set_file d (Some (json_encode todos)))
    = Ok (json_record <$> todos).
Proof.
  intros Hopen Hasc. unfold loadTodos. cbn. rewrite Hopen.
  rewrite fmap_json_record_idemp.
  by rewrite sort_Slice_strictly_ascending
    by by apply strictly_ascending_json_record.
Qed.

Lemma loadTodos_set_file_valid d todos :
  open_fault d = false → strictly_ascending todos → valid_contents todos →
  loadTodos (set_file d (Some (json_encode todos))) = Ok todos.
Proof.
  intros Hopen Hasc Hv. rewrite loadTodos_set_file by done.
  by rewrite fmap_json_record_valid.
Qed.

Lemma saveTodos_healthy d todos :
  create_fault d = false → write_fault d = None →
  saveTodos d todos = (None, set_file d (Some (json_encode todos))).
Proof. intros Hc Hw. unfold saveTodos. by rewrite Hc, Hw. Qed.

(** An empty store is a file that does not exist yet or holds an empty
    array. *)
Lemma empty_store_iff d :
  open_fault d = false →
  empty_store d ↔ file d = None ∨ file d = Some (Array []).
Proof.
  intros Hopen. unfold empty_store, loadTodos. rewrite Hopen.
  destruct (file d) as [[|stored]|]; cbn; split.
  - done.
  - by intros [|].
  - intros [= Hnil%sort_Slice_nil_inv]. right.
    by apply fmap_nil_inv in Hnil as ->.
  - intros [|[= ->]]; [done|]. f_equal. apply Permutation_nil_r, sort_Slice_perm.
  - by left.
  - done.
Qed.

(** C3 (as amended). For every strictly ascending sequence whose contents
    are valid UTF-8, on a medium without faults, [saveTodos] succeeds and
    the [loadTodos] that follows it on the same file returns that
    sequence: the same elements in the same order. *)
Theorem save_then_load (d : Disk) (todos : list Todo) :
  strictly_ascending todos → valid_contents todos → healthy d →
  ∃ d', saveTodos d todos = (None, d') ∧ loadTodos d' = Ok todos.
Proof.
  intros Hasc Hvalid (Hopen & Hcreate & Hwrite).
  exists (set_file d (Some (json_encode todos))).
  split; [by apply saveTodos_healthy|by apply loadTodos_set_file_valid].
Qed.

(** C6. Every sequence that a successful [loadTodos] returns is sorted
    ascending by identifier, whatever the order of the records in the
    file: it is the array read from the file, rearranged. *)
Theorem loadTodos_sorted (d : Disk) (todos : list Todo) :
  loadTodos d = Ok todos →
  ascending todos ∧
  ∀ stored, file d = Some (Array stored) → todos ≡ₚ json_record <$> stored.
Proof.
  intros Hload. split; [by eapply loadTodos_ascending|].
  intros stored Hfile. unfold loadTodos in Hload. rewrite Hfile in Hload.
  destruct (open_fault d); [done|]. cbn in Hload. injection Hload as <-.
  apply sort_Slice_perm.
Qed.

End persistence.

(** ** Service operations *)

Section operations_properties.
Context `{Library}.

Lemma validateTodoRequest_valid req : valid req → validateTodoRequest req = None.
Proof. intros Hv. unfold validateTodoRequest. by rewrite bool_decide_eq_false_2. Qed.

(** C8. For every request whose contents is empty once trimmed,
    [CreateTodo] fails with the validation error, and it does so before
    any call of [loadTodos] or [saveTodos]: the store after the call is
    the store before it. *)
Theorem CreateTodo_rejects_blank (d : Disk) (req : TodoRequest) :
  TrimSpace (ReqContents req) = "" →
  ∃ err, kind_of err = ValidationError ∧
         CreateTodo req = Return (Err err) ∧
         run (CreateTodo req) d = (Val (Err err), d).
Proof.
  intros Hblank. exists ErrEmptyContents. split; [done|].
  unfold CreateTodo, validateTodoRequest. by rewrite bool_decide_eq_true_2.
Qed.

(** [CreateTodo] on a medium that takes the write. *)
Lemma run_CreateTodo d req todos :
  valid req → loadTodos d = Ok todos →
  create_fault d = false → write_fault d = None →
  let newTodo := mkTodo (getNextID todos) (TrimSpace (ReqContents req)) in
  ∃ todos', insertTodoSorted todos newTodo = Val todos' ∧
    run (CreateTodo req) d
      = (Val (Ok newTodo), set_file d (Some (json_encode todos'))).
Proof.
  intros Hv Hload Hc Hw newTodo.
  destruct (insertTodoSorted_Val todos newTodo) as (pos & _ & Hins);
    [by eapply loadTodos_ascending|].
  eexists. split; [exact Hins|].
  unfold CreateTodo. rewrite validateTodoRequest_valid by done.
  cbn. rewrite Hload. cbn. fold newTodo. rewrite Hins. cbn.
  by rewrite saveTodos_healthy.
Qed.

(** [DeleteTodo] of a record that the search finds, on a medium that
    takes the write. *)
Lemma run_DeleteTodo d id todos (i : Z) :
  loadTodos d = Ok todos → binarySearchTodoByID todos id = Val i → i ≠ -1 →
  create_fault d = false → write_fault d = None →
  run (DeleteTodo id) d
    = (Val None, set_file d (Some (json_encode (delete (Z.to_nat i) todos)))).
Proof.
  intros Hload Hfind Hi Hc Hw.
  destruct (binarySearchTodoByID_safe todos id) as (res & Hres & Hcases).
  rewrite Hfind in Hres. injection Hres as <-.
  destruct Hcases as [->|[Hrange _]]; [done|].
  unfold DeleteTodo. cbn. rewrite Hload. cbn. rewrite Hfind. cbn.
  rewrite bool_decide_eq_false_2 by done.
  rewrite removeAt_Val by lia. cbn. by rewrite saveTodos_healthy.
Qed.

(** [UpdateTodo] of an identifier that the loaded sequence has, on a
    medium that takes the write: the record at the position found is
    replaced and the sequence saved. *)
Lemma run_UpdateTodo d todos id req :
  loadTodos d = Ok todos → (∃ a, a ∈ todos ∧ ID a = id) → valid req →
  create_fault d = false → write_fault d = None →
  let updated := mkTodo id (TrimSpace (ReqContents req)) in
  ∃ i old,
    index todos i = Val old ∧ ID old = id ∧
    run (UpdateTodo id req) d
      = (Val (Ok updated),
         set_file d (Some (json_encode (<[Z.to_nat i := updated]> todos)))).
Proof.
  intros Hload Hin Hv Hc Hw updated.
  pose proof (loadTodos_ascending _ _ Hload) as Hasc.
  destruct (binarySearchTodoByID_present todos id Hasc Hin)
    as (i & Hfind & Hrange & old & Hidx & Hid).
  pose proof (index_inv _ _ _ Hidx) as [Hi Hlook].
  exists i, old. split; [done|]. split; [done|].
  unfold UpdateTodo. rewrite validateTodoRequest_valid by done.
  cbn. rewrite Hload. cbn. rewrite Hfind. cbn.
  rewrite bool_decide_eq_false_2 by lia. rewrite Hidx. cbn.
  unfold store. rewrite bool_decide_eq_true_2 by done. cbn.
  rewrite Hid. fold updated.
  rewrite (index_lookup _ i updated); [|lia|].
  - cbn. by rewrite saveTodos_healthy.
  - apply list_lookup_insert_eq. unfold len in Hi. lia.
Qed.

(** C9 (as amended). For every store whose file holds a strictly
    ascending sequence, every identifier present in that sequence and every
    valid contents, [UpdateTodo] on a medium without faults returns the
    record with that identifier and the trimmed contents, and the sequence
    that the file holds afterwards is the one it held before with the
    record at one position [i], which had that identifier, replaced by that
    record (its contents as the encoder writes it): the same length, the
    same identifiers in the same order, every other position unchanged. *)
Theorem UpdateTodo_frame (d : Disk) (p : payload) (stored : list Todo)
    (id : Z) (req : TodoRequest) :
  file d = Some p → json_decode p = Ok stored → strictly_ascending stored →
  (∃ a, a ∈ stored ∧ ID a = id) → valid req → healthy d →
  let updated := mkTodo id (TrimSpace (ReqContents req)) in
  ∃ i old p' stored',
    index stored i = Val old ∧ ID old = id ∧
    run (UpdateTodo id req) d = (Val (Ok updated), set_file d (Some p')) ∧
    json_decode p' = Ok stored' ∧
    len stored' = len stored ∧
    ID <$> stored' = ID <$> stored ∧
    index stored' i = Val (json_record updated) ∧
    (∀ j, j ≠ i → index stored' j = index stored j).
Proof.
  intros Hfile Hdecode Hasc Hin Hv (Hopen & Hc & Hw) updated.
  assert (loadTodos d = Ok stored) as Hload.
  { unfold loadTodos. rewrite Hopen, Hfile, Hdecode.
    by rewrite sort_Slice_strictly_ascending. }
  destruct (run_UpdateTodo d stored id req Hload Hin Hv Hc Hw)
    as (i & old & Hidx & Hid & Hrun).
  pose proof (index_inv _ _ _ Hidx) as [Hi Hlook].
  set (stored' := <[Z.to_nat i := json_record updated]> stored).
  assert (len stored' = len stored) as Hlen
    by (unfold len, stored'; by rewrite length_insert).
  exists i, old, (json_encode (<[Z.to_nat i := updated]> stored)), stored'.
  split; [done|]. split; [done|]. split; [exact Hrun|].
  split; [|split; [done|split; [|split]]].
  - cbn. rewrite fmap_json_record_idemp, list_fmap_insert.
    by rewrite (loadTodos_json_record d stored Hload).
  - unfold stored'. rewrite list_fmap_insert. apply list_insert_id.
    rewrite list_lookup_fmap, Hlook. cbn. by rewrite Hid.
  - apply index_lookup; [lia|]. apply list_lookup_insert_eq. unfold len in Hi. lia.
  - intros j Hj. unfold index. rewrite Hlen. case_bool_decide; [|done].
    unfold stored'. rewrite list_lookup_insert_ne by lia. done.
Qed.

(** C5 (as amended). The allocator returns 1 plus the largest of 0 and
    the identifiers of the sequence, as long as every identifier is below
    the largest [int]. On an empty store and a medium without faults,
    [CreateTodo] assigns 1, the next [CreateTodo] assigns 2, and after
    [DeleteTodo] of 1 a further [CreateTodo] assigns 3. *)
Theorem getNextID_allocates :
  (∀ todos, Forall (λ todo, ID todo < MaxInt) todos →
     getNextID todos = 1 + Z.max 0 (max_id todos)) ∧
  (∀ d req1 req2 req3,
     healthy d → empty_store d → valid req1 → valid req2 → valid req3 →
     let c1 := TrimSpace (ReqContents req1) in
     let c2 := TrimSpace (ReqContents req2) in
     let c3 := TrimSpace (ReqContents req3) in
     ∃ d1 d2 d3 d4,
       run (CreateTodo req1) d = (Val (Ok (mkTodo 1 c1)), d1) ∧
       run (CreateTodo req2) d1 = (Val (Ok (mkTodo 2 c2)), d2) ∧
       run (DeleteTodo 1) d2 = (Val None, d3) ∧
       run (CreateTodo req3) d3 = (Val (Ok (mkTodo 3 c3)), d4) ∧
       loadTodos d4 = Ok [mkTodo 2 (json_text c2); mkTodo 3 (json_text c3)]).
Proof.
  split; [apply getNextID_no_overflow|].
  intros d req1 req2 req3 (Hopen & Hcreate & Hwrite) Hempty Hv1 Hv2 Hv3 c1 c2 c3.
  assert (∀ todos, strictly_ascending todos →
            loadTodos (set_file d (Some (json_encode todos)))
              = Ok (json_record <$> todos))
    as Hreload by (intros; by apply loadTodos_set_file).
  destruct (run_CreateTodo d req1 [] Hv1 Hempty Hcreate Hwrite)
    as (s1 & Hs1 & Hrun1). injection Hs1 as <-.
  set (d1 := set_file d (Some (json_encode [mkTodo 1 c1]))) in *.
  assert (loadTodos d1 = Ok [mkTodo 1 (json_text c1)]) as Hload1
    by (apply Hreload; repeat constructor).
  destruct (run_CreateTodo d1 req2 _ Hv2 Hload1 Hcreate Hwrite)
    as (s2 & Hs2 & Hrun2). injection Hs2 as <-.
  set (d2 := set_file d1
               (Some (json_encode [mkTodo 1 (json_text c1); mkTodo 2 c2]))) in *.
  assert (loadTodos d2
          = Ok (json_record <$> [mkTodo 1 (json_text c1); mkTodo 2 c2]))
    as Hload2 by (apply Hreload; repeat constructor; cbn; lia).
  pose proof (run_DeleteTodo d2 1 _ 0 Hload2 eq_refl ltac:(done) Hcreate Hwrite)
    as Hrun3.
  set (d3 := set_file d2 (Some (json_encode [mkTodo 2 (json_text c2)]))) in *.
  assert (loadTodos d3 = Ok [mkTodo 2 (json_text c2)]) as Hload3.
  { transitivity (Ok (json_record <$> [mkTodo 2 (json_text c2)])).
    - apply Hreload. repeat constructor.
    - cbn [fmap list_fmap]. unfold json_record. cbn [ID Contents].
      by rewrite json_text_idemp. }
  destruct (run_CreateTodo d3 req3 _ Hv3 Hload3 Hcreate Hwrite)
    as (s3 & Hs3 & Hrun4). injection Hs3 as <-.
  exists d1, d2, d3. eexists.
  split; [exact Hrun1|]. split; [exact Hrun2|]. split; [exact Hrun3|].
  split; [exact Hrun4|].
  transitivity (Ok (json_record <$> [mkTodo 2 (json_text c2); mkTodo 3 c3])).
  - apply Hreload. repeat constructor; cbn; lia.
  - cbn [fmap list_fmap]. unfold json_record. cbn [ID Contents].
      by rewrite json_text_idemp.
Qed.

(** A step of the pool is a step of the sequential run. *)
Lemma run_step {A} (p : prog A) (d : Disk) :
  run p d = run (step p d).1 (step p d).2.
Proof.
  destruct p as [a| |k|todos k]; cbn; [done..|].
  by destruct (saveTodos d todos).
Qed.

(** C4 (what the code does). Two [CreateTodo] calls in flight on an
    empty store: when both load before either saves, both load the empty
    sequence, both are told that their record was created with
    identifier 1, and the file ends with the second record alone; the
    first record is lost. When the calls run one after the other, the
    second gets identifier 2 and the file holds both records. *)
Theorem CreateTodo_lost_update (d : Disk) (req1 req2 : TodoRequest) :
  healthy d → empty_store d → valid req1 → valid req2 →
  let c1 := TrimSpace (ReqContents req1) in
  let c2 := TrimSpace (ReqContents req2) in
  interleave [0; 1; 0; 1]%nat [CreateTodo req1; CreateTodo req2] d
    = ([Return (Ok (mkTodo 1 c1)); Return (Ok (mkTodo 1 c2))],
       set_file d (Some (json_encode [mkTodo 1 c2]))) ∧
  interleave [0; 0; 1; 1]%nat [CreateTodo req1; CreateTodo req2] d
    = ([Return (Ok (mkTodo 1 c1)); Return (Ok (mkTodo 2 c2))],
       set_file d (Some (json_encode [mkTodo 1 c1; mkTodo 2 c2]))).
Proof.
  intros (Hopen & Hcreate & Hwrite) Hempty Hv1 Hv2 c1 c2.
  unfold CreateTodo. rewrite !validateTodoRequest_valid by done.
  assert (getNextID [] = 1) as Hid1 by reflexivity.
  assert (getNextID [json_record (mkTodo 1 c1)] = 2) as Hid2 by reflexivity.
  assert (∀ todo, insertTodoSorted [] todo = Val [todo]) as Hins1
    by reflexivity.
  assert (insertTodoSorted [json_record (mkTodo 1 c1)] (mkTodo 2 c2)
          = Val [json_record (mkTodo 1 c1); mkTodo 2 c2]) as Hins2
    by (by vm_compute).
  assert (json_encode [json_record (mkTodo 1 c1); mkTodo 2 c2]
          = json_encode [mkTodo 1 c1; mkTodo 2 c2]) as Hfile
    by (unfold json_encode, json_record; cbn; by rewrite json_text_idemp).
  split; cbn; rewrite !Hempty; cbn; rewrite !Hid1, !Hins1; cbn.
  - unfold saveTodos. cbn. rewrite Hcreate, Hwrite. cbn.
    by rewrite Hcreate, Hwrite.
  - unfold saveTodos. cbn. rewrite Hcreate, Hwrite. cbn.
    rewrite (loadTodos_set_file d [mkTodo 1 c1] Hopen) by (repeat constructor).
    cbn. fold c1 c2. rewrite Hid2, Hins2. cbn.
    unfold saveTodos. cbn. rewrite Hcreate, Hwrite. by rewrite <-Hfile.
Qed.

End operations_properties.

(** ** The properties on the sample stores, with the reference library *)

Lemma save_then_load_witness :
  strictly_ascending three_todos ∧ valid_contents three_todos ∧
  healthy fresh_disk ∧
  ∃ d', saveTodos fresh_disk three_todos = (None, d') ∧
        loadTodos (H:=reference.library) d' = Ok three_todos.
Proof.
  assert (strictly_ascending three_todos) as Hasc
    by (apply (bool_decide_unpack _); vm_compute; exact I).
  assert (valid_contents three_todos) as Hvalid
    by (apply (bool_decide_unpack _); vm_compute; exact I).
  assert (healthy fresh_disk) as Hd by (by vm_compute).
  split; [exact Hasc|]. split; [exact Hvalid|]. split; [exact Hd|].
  exact (save_then_load (H:=reference.library) fresh_disk three_todos
           Hasc Hvalid Hd).
Defined.

(** Contents that is not UTF-8 does not come back: the record whose
    contents is the byte 0xFF is saved, and the load that follows returns
    it with contents U+FFFD. *)
Lemma save_then_load_invalid_UTF8 :
  strictly_ascending invalid_UTF8_todos ∧ healthy fresh_disk ∧
  ∃ d', saveTodos fresh_disk invalid_UTF8_todos = (None, d') ∧
        loadTodos (H:=reference.library) d'
          = Ok [mkTodo 1 (replacement_rune "")] ∧
        loadTodos (H:=reference.library) d' ≠ Ok invalid_UTF8_todos.
Proof.
  split; [repeat constructor|]. split; [by vm_compute|].
  eexists. split; [reflexivity|]. split; [by vm_compute|].
  vm_compute. discriminate.
Qed.

Lemma loadTodos_sorted_witness :
  let todos := [mkTodo 1 "a"; mkTodo 2 "b"; mkTodo 3 "c"] in
  loadTodos (H:=reference.library) edited_disk = Ok todos ∧
  ascending todos ∧
  ∀ stored, file edited_disk = Some (Array stored) →
    todos ≡ₚ json_record <$> stored.
Proof.
  intros todos.
  assert (loadTodos (H:=reference.library) edited_disk = Ok todos) as Hload
    by (vm_compute; reflexivity).
  split; [exact Hload|].
  exact (loadTodos_sorted (H:=reference.library) edited_disk todos Hload).
Defined.

Lemma CreateTodo_rejects_blank_witness :
  let req := mkTodoRequest 0 "   " in
  TrimSpace (Library:=reference.library) (ReqContents req) = "" ∧
  ∃ err, kind_of err = ValidationError ∧
         CreateTodo (H:=reference.library) req = Return (Err err) ∧
         run (H:=reference.library) (CreateTodo req) two_disk
           = (Val (Err err), two_disk).
Proof.
  intros req.
  assert (TrimSpace (Library:=reference.library) (ReqContents req) = "") as Hblank
    by (vm_compute; reflexivity).
  split; [exact Hblank|].
  exact (CreateTodo_rejects_blank (H:=reference.library) two_disk req Hblank).
Defined.

Lemma UpdateTodo_frame_witness :
  let req := mkTodoRequest 0 " buy oat milk " in
  let updated := mkTodo 1 (TrimSpace (Library:=reference.library) (ReqContents req)) in
  file two_disk = Some (Array two_todos) ∧
  json_decode (Array two_todos) = Ok two_todos ∧
  strictly_ascending two_todos ∧
  (∃ a, a ∈ two_todos ∧ ID a = 1) ∧
  valid (H:=reference.library) req ∧ healthy two_disk ∧
  ∃ i old p' stored',
    index two_todos i = Val old ∧ ID old = 1 ∧
    run (H:=reference.library) (UpdateTodo 1 req) two_disk
      = (Val (Ok updated), set_file two_disk (Some p')) ∧
    json_decode p' = Ok stored' ∧
    len stored' = len two_todos ∧
    ID <$> stored' = ID <$> two_todos ∧
    index stored' i = Val (json_record updated) ∧
    (∀ j, j ≠ i → index stored' j = index two_todos j).
Proof.
  intros req updated.
  assert (json_decode (Array two_todos) = Ok two_todos) as Hdecode
    by (vm_compute; reflexivity).
  assert (strictly_ascending two_todos) as Hasc
    by (apply (bool_decide_unpack _); vm_compute; exact I).
  assert (∃ a, a ∈ two_todos ∧ ID a = 1) as Hin
    by (exists (mkTodo 1 "buy milk"); split; [left|reflexivity]).
  assert (valid (H:=reference.library) req) as Hv by (vm_compute; discriminate).
  assert (healthy two_disk) as Hd by (by vm_compute).
  split; [reflexivity|]. split; [exact Hdecode|]. split; [exact Hasc|].
  split; [exact Hin|]. split; [exact Hv|]. split; [exact Hd|].
  exact (UpdateTodo_frame (H:=reference.library) two_disk (Array two_todos)
           two_todos 1 req eq_refl Hdecode Hasc Hin Hv Hd).
Defined.

(** A stored sequence that is not ascending does not keep its order: on
    the file with identifiers 3, 1, 2, [UpdateTodo] of 1 finds the record
    in the sequence that [loadTodos] has sorted and saves that sequence, so
    the file holds the records in the order 1, 2, 3 afterwards. *)
Lemma UpdateTodo_reorders :
  let stored := [mkTodo 3 "c"; mkTodo 1 "a"; mkTodo 2 "b"] in
  let req := mkTodoRequest 0 "x" in
  file edited_disk = Some (Array stored) ∧
  json_decode (Array stored) = Ok stored ∧
  (∃ a, a ∈ stored ∧ ID a = 1) ∧
  valid (H:=reference.library) req ∧ healthy edited_disk ∧
  ∃ p' stored',
    run (H:=reference.library) (UpdateTodo 1 req) edited_disk
      = (Val (Ok (mkTodo 1 "x")), set_file edited_disk (Some p')) ∧
    json_decode p' = Ok stored' ∧
    stored' = [mkTodo 1 "x"; mkTodo 2 "b"; mkTodo 3 "c"] ∧
    ID <$> stored' ≠ ID <$> stored ∧
    index stored' 0 ≠ index stored 0.
Proof.
  intros stored req.
  split; [reflexivity|]. split; [by vm_compute|].
  split; [exists (mkTodo 1 "a"); split; [right; left|reflexivity]|].
  split; [vm_compute; discriminate|]. split; [by vm_compute|].
  exists (Array [mkTodo 1 "x"; mkTodo 2 "b"; mkTodo 3 "c"]).
  exists [mkTodo 1 "x"; mkTodo 2 "b"; mkTodo 3 "c"].
  split; [by vm_compute|]. split; [by vm_compute|]. split; [reflexivity|].
  split; vm_compute; discriminate.
Qed.

Lemma getNextID_allocates_witness :
  let req1 := mkTodoRequest 0 "buy milk" in
  let req2 := mkTodoRequest 0 "walk dog" in
  let req3 := mkTodoRequest 0 "water plants" in
  Forall (λ todo, ID todo < MaxInt) three_todos ∧
  getNextID three_todos = 1 + Z.max 0 (max_id three_todos) ∧
  healthy fresh_disk ∧ empty_store (H:=reference.library) fresh_disk ∧
  valid (H:=reference.library) req1 ∧ valid (H:=reference.library) req2 ∧
  valid (H:=reference.library) req3 ∧
  ∃ d1 d2 d3 d4,
    run (H:=reference.library) (CreateTodo req1) fresh_disk
      = (Val (Ok (mkTodo 1 (TrimSpace (ReqContents req1)))), d1) ∧
    run (H:=reference.library) (CreateTodo req2) d1
      = (Val (Ok (mkTodo 2 (TrimSpace (ReqContents req2)))), d2) ∧
    run (H:=reference.library) (DeleteTodo 1) d2 = (Val None, d3) ∧
    run (H:=reference.library) (CreateTodo req3) d3
      = (Val (Ok (mkTodo 3 (TrimSpace (ReqContents req3)))), d4) ∧
    loadTodos (H:=reference.library) d4
      = Ok [mkTodo 2 (json_text (TrimSpace (ReqContents req2)));
            mkTodo 3 (json_text (TrimSpace (ReqContents req3)))].
Proof.
  intros req1 req2 req3.
  assert (Forall (λ todo, ID todo < MaxInt) three_todos) as Hall
    by (apply (bool_decide_unpack _); vm_compute; exact I).
  assert (healthy fresh_disk) as Hd by (by vm_compute).
  assert (empty_store (H:=reference.library) fresh_disk) as He by reflexivity.
  assert (valid (H:=reference.library) req1) as Hv1 by (vm_compute; discriminate).
  assert (valid (H:=reference.library) req2) as Hv2 by (vm_compute; discriminate).
  assert (valid (H:=reference.library) req3) as Hv3 by (vm_compute; discriminate).
  split; [exact Hall|].
  split; [exact (proj1 (getNextID_allocates (H:=reference.library)) three_todos Hall)|].
  split; [exact Hd|]. split; [exact He|].
  split; [exact Hv1|]. split; [exact Hv2|]. split; [exact Hv3|].
  exact (proj2 (getNextID_allocates (H:=reference.library))
           fresh_disk req1 req2 req3 Hd He Hv1 Hv2 Hv3).
Defined.

Lemma CreateTodo_lost_update_witness :
  let req1 := mkTodoRequest 0 "buy milk" in
  let req2 := mkTodoRequest 0 "walk dog" in
  healthy fresh_disk ∧ empty_store (H:=reference.library) fresh_disk ∧
  valid (H:=reference.library) req1 ∧ valid (H:=reference.library) req2 ∧
  interleave (H:=reference.library) [0; 1; 0; 1]%nat
      [CreateTodo req1; CreateTodo req2] fresh_disk
    = ([Return (Ok (mkTodo 1 "buy milk")); Return (Ok (mkTodo 1 "walk dog"))],
       set_file fresh_disk (Some (Array [mkTodo 1 "walk dog"]))) ∧
  interleave (H:=reference.library) [0; 0; 1; 1]%nat
      [CreateTodo req1; CreateTodo req2] fresh_disk
    = ([Return (Ok (mkTodo 1 "buy milk")); Return (Ok (mkTodo 2 "walk dog"))],
       set_file fresh_disk
         (Some (Array [mkTodo 1 "buy milk"; mkTodo 2 "walk dog"]))).
Proof.
  intros req1 req2.
  assert (healthy fresh_disk) as Hd by (by vm_compute).
  assert (empty_store (H:=reference.library) fresh_disk) as He by reflexivity.
  assert (valid (H:=reference.library) req1) as Hv1 by (vm_compute; discriminate).
  assert (valid (H:=reference.library) req2) as Hv2 by (vm_compute; discriminate).
  split; [exact Hd|]. split; [exact He|]. split; [exact Hv1|]. split; [exact Hv2|].
  exact (CreateTodo_lost_update (H:=reference.library) fresh_disk req1 req2
           Hd He Hv1 Hv2).
Defined.

(** * Further properties of the sorted index *)

(** X1. On any slice, sorted or not, the search ends without a panic, and an
    answer other than -1 is a valid position whose record has the target
    identifier: the search may miss a record of an unsorted slice, it never
    points at a wrong one. *)
Theorem binarySearchTodoByID_sound (todos : list Todo) (targetID : Z) :
  ∃ res, binarySearchTodoByID todos targetID = Val res ∧
    (res = -1 ∨
     (0 ≤ res < len todos ∧ ∃ a, index todos res = Val a ∧ ID a = targetID)).
Proof.
  destruct (binarySearchTodoByID_safe todos targetID) as (res & Hres & Hcases).
  exists res. split; [done|]. destruct Hcases as [->|[Hrange Hfound]]; [by left|].
  right. split; [lia|done].
Qed.

(** X2. Strictness is not needed for completeness: on a slice that is sorted
    ascending, with or without repeated identifiers, the search answers -1
    exactly when no record has the target identifier. *)
Theorem binarySearchTodoByID_ascending_iff (todos : list Todo) (targetID : Z) :
  ascending todos →
  binarySearchTodoByID todos targetID = Val (-1) ↔
  ∀ a, a ∈ todos → ID a ≠ targetID.
Proof.
  intros Hasc. split; [by apply binarySearchTodoByID_absent|].
  intros Hno.
  destruct (binarySearchTodoByID_safe todos targetID)
    as (res & Hres & [->|[_ (a & Ha & Hid)]]); [done|].
  apply index_inv in Ha as [_ Ha]. apply list_elem_of_lookup_2 in Ha.
  by destruct (Hno a Ha).
Qed.

Lemma binarySearchTodoByID_ascending_iff_witness :
  ascending repeated_todos ∧
  (binarySearchTodoByID repeated_todos 5 = Val (-1) ↔
   ∀ a, a ∈ repeated_todos → ID a ≠ 5).
Proof.
  assert (ascending repeated_todos) as Hasc
    by (apply (bool_decide_unpack _); vm_compute; exact I).
  split; [exact Hasc|].
  exact (binarySearchTodoByID_ascending_iff repeated_todos 5 Hasc).
Defined.

(** The position loop of [insertTodoSorted] stays inside its window on any
    slice. *)
Lemma insertTodoSorted_loop_safe todos newID (n : nat) :
  ∀ l r, (Z.to_nat (r - l) ≤ n)%nat → 0 ≤ l ≤ r → r ≤ len todos →
    ∃ pos, insertTodoSorted_loop todos newID l r = Val pos ∧ l ≤ pos ≤ r.
Proof.
  induction n as [|n IH]; intros l r Hn Hl Hr;
    rewrite insertTodoSorted_loop_eq; destruct (decide (l < r)) as [Hlr|Hlr];
    try lia.
  1, 3: exists l; split; [done|lia].
  pose proof (midpoint_bounds l r ltac:(lia)) as Hb.
  pose proof (midpoint_below l r Hlr) as Hb'. cbv zeta.
  open_turn todos l r mid a Hmid Hlook Hidx.
  case_bool_decide.
  - destruct (IH (mid + 1) r) as (pos & -> & Hpos); [lia..|].
    exists pos. split; [done|lia].
  - destruct (IH l mid) as (pos & -> & Hpos); [lia..|].
    exists pos. split; [done|lia].
Qed.

(** X3. On any slice, sorted or not, [insertTodoSorted] ends without a panic
    and returns the slice with the new record put in at one position: one
    longer, the old records in their order around it. *)
Theorem insertTodoSorted_any_slice (todos : list Todo) (newTodo : Todo) :
  ∃ result pos,
    insertTodoSorted todos newTodo = Val result ∧
    0 ≤ pos ≤ len todos ∧
    result = take (Z.to_nat pos) todos ++ newTodo :: drop (Z.to_nat pos) todos ∧
    len result = len todos + 1 ∧
    result ≡ₚ newTodo :: todos.
Proof.
  assert (∃ pos, 0 ≤ pos ≤ len todos ∧
            insertTodoSorted todos newTodo
              = Val (inserted_at todos (Z.to_nat pos) newTodo)) as (pos & Hpos & Hval).
  { unfold insertTodoSorted. case_bool_decide as Hlen.
    - destruct todos as [|? ?]; [|done]. by exists 0.
    - pose proof (len_nonneg todos).
      destruct (insertTodoSorted_loop_safe todos (ID newTodo)
                  (Z.to_nat (len todos - 0)) 0 (len todos))
        as (pos & Hloop & Hpos); [lia..|].
      exists pos. split; [done|]. rewrite Hloop. cbn [mbind go_bind].
      by apply insertTodoSorted_assemble. }
  exists (inserted_at todos (Z.to_nat pos) newTodo), pos.
  split; [done|]. split; [done|]. split; [done|].
  split; [unfold len; rewrite length_inserted_at; lia|].
  apply inserted_at_Permutation.
Qed.

Lemma ascending_intro todos :
  (∀ (i j : nat) a b, (i < j)%nat →
     todos !! i = Some a → todos !! j = Some b → ID a ≤ ID b) →
  ascending todos.
Proof.
  induction todos as [|x l IH]; intros Hle; [constructor|].
  constructor.
  - apply IH. intros i j a b Hij Hi Hj. apply (Hle (S i) (S j)); [lia|done..].
  - destruct l as [|y l]; constructor. apply (Hle 0%nat 1%nat); [lia|done..].
Qed.

Lemma ascending_inserted_at todos newTodo (pos : Z) :
  ascending todos →
  insertion_point todos (ID newTodo) pos →
  ascending (inserted_at todos (Z.to_nat pos) newTodo).
Proof.
  intros Hasc (Hpos & Hbelow & Habove).
  set (p := Z.to_nat pos). assert (p ≤ length todos)%nat as Hp by (unfold len in *; lia).
  assert (∀ i a, (i < p)%nat → todos !! i = Some a → ID a < ID newTodo) as Hlo.
  { intros i a Hi Hlook. apply (Hbelow (Z.of_nat i)); [lia|]. by rewrite Nat2Z.id. }
  assert (∀ i a, (p ≤ i)%nat → todos !! i = Some a → ID newTodo ≤ ID a) as Hhi.
  { intros i a Hi Hlook. apply (Habove (Z.of_nat i)); [lia|]. by rewrite Nat2Z.id. }
  apply ascending_intro. intros i j a b Hij Hi Hj.
  destruct j as [|j]; [lia|].
  destruct (Nat.lt_trichotomy i p) as [Hip|[->|Hip]].
  - rewrite lookup_inserted_at_lt in Hi by done.
    destruct (Nat.lt_trichotomy (S j) p) as [Hjp|[Hjp|Hjp]].
    + rewrite lookup_inserted_at_lt in Hj by done.
      apply (ascending_lookup todos i (S j)); [done|lia|done..].
    + rewrite Hjp, lookup_inserted_at_eq in Hj by done. injection Hj as <-.
      pose proof (Hlo i a Hip Hi). lia.
    + rewrite lookup_inserted_at_gt in Hj by lia.
      apply (ascending_lookup todos i j); [done|lia|done..].
  - rewrite lookup_inserted_at_eq in Hi by done. injection Hi as <-.
    rewrite lookup_inserted_at_gt in Hj by lia. apply (Hhi j); [lia|done].
  - destruct i as [|i]; [lia|].
    rewrite lookup_inserted_at_gt in Hi, Hj by lia.
    apply (ascending_lookup todos i j); [done|lia|done..].
Qed.

(** X4. A record whose identifier is already there: on a slice sorted
    ascending, repeated identifiers allowed, [insertTodoSorted] keeps the
    slice sorted ascending and puts the new record at the leftmost position
    that does so, before every record with the same identifier. *)
Theorem insertTodoSorted_ascending (todos : list Todo) (newTodo : Todo) :
  ascending todos →
  ∃ result pos,
    insertTodoSorted todos newTodo = Val result ∧
    ascending result ∧
    index result pos = Val newTodo ∧
    (∀ i a, 0 ≤ i < pos → index result i = Val a → ID a < ID newTodo) ∧
    (∀ i a, pos < i → index result i = Val a → ID newTodo ≤ ID a).
Proof.
  intros Hasc.
  destruct (insertTodoSorted_Val todos newTodo Hasc) as (pos & Hpoint & Hval).
  pose proof Hpoint as (Hpos & Hbelow & Habove).
  assert (Z.to_nat pos ≤ length todos)%nat as Hp by (unfold len in *; lia).
  exists (inserted_at todos (Z.to_nat pos) newTodo), pos.
  split; [done|]. split; [by apply ascending_inserted_at|]. split; [|split].
  - apply index_lookup; [lia|]. by apply lookup_inserted_at_eq.
  - intros i a Hi [_ Hlook]%index_inv.
    rewrite lookup_inserted_at_lt in Hlook by lia. by apply (Hbelow i).
  - intros i a Hi [_ Hlook]%index_inv.
    replace (Z.to_nat i) with (S (Z.to_nat (i - 1))) in Hlook by lia.
    rewrite lookup_inserted_at_gt in Hlook by lia. apply (Habove (i - 1)); [lia|done].
Qed.

Lemma insertTodoSorted_ascending_witness :
  let newTodo := mkTodo 3 "again" in
  ascending repeated_todos ∧
  ∃ result pos,
    insertTodoSorted repeated_todos newTodo = Val result ∧
    ascending result ∧
    index result pos = Val newTodo ∧
    (∀ i a, 0 ≤ i < pos → index result i = Val a → ID a < ID newTodo) ∧
    (∀ i a, pos < i → index result i = Val a → ID newTodo ≤ ID a).
Proof.
  intros newTodo.
  assert (ascending repeated_todos) as Hasc
    by (apply (bool_decide_unpack _); vm_compute; exact I).
  split; [exact Hasc|].
  exact (insertTodoSorted_ascending repeated_todos newTodo Hasc).
Defined.

(** * Further properties of the ID allocator *)

Lemma max_from_elem (m : Z) todos a : a ∈ todos → ID a ≤ max_from m todos.
Proof.
  unfold max_from. induction 1 as [a l|a b l _ IH]; cbn; [lia|].
  etrans; [exact IH|]. lia.
Qed.

Lemma getNextID_above todos a :
  Forall (λ todo, ID todo < MaxInt) todos → a ∈ todos → ID a < getNextID todos.
Proof.
  intros Hall Ha. rewrite (getNextID_no_overflow todos Hall), <-max_from_0_max_id.
  pose proof (max_from_elem 0 todos a Ha). lia.
Qed.

(** X5. As long as no identifier is the largest [int], the allocated
    identifier is at least 1 and larger than every identifier of the
    sequence: it is never one that is in use. *)
Theorem getNextID_fresh (todos : list Todo) :
  Forall (λ todo, ID todo < MaxInt) todos →
  1 ≤ getNextID todos ∧ ∀ a, a ∈ todos → ID a < getNextID todos.
Proof.
  intros Hall. split.
  - rewrite (getNextID_no_overflow todos Hall), <-max_from_0_max_id.
    pose proof (max_from_ge 0 todos). lia.
  - intros a Ha. by apply getNextID_above.
Qed.

Lemma getNextID_fresh_witness :
  Forall (λ todo, ID todo < MaxInt) five_todos ∧
  1 ≤ getNextID five_todos ∧ ∀ a, a ∈ five_todos → ID a < getNextID five_todos.
Proof.
  assert (Forall (λ todo, ID todo < MaxInt) five_todos) as Hall
    by (apply (bool_decide_unpack _); vm_compute; exact I).
  split; [exact Hall|]. exact (getNextID_fresh five_todos Hall).
Defined.

(** * Further properties of the service operations *)

Lemma insertion_point_end todos (newID pos : Z) :
  insertion_point todos newID pos →
  (∀ a, a ∈ todos → ID a < newID) → pos = len todos.
Proof.
  intros (Hpos & _ & Habove) Hall.
  destruct (decide (pos = len todos)) as [|Hne]; [done|].
  destruct (index_Val todos pos) as (a & Hlook & _); [lia|].
  pose proof (Habove pos a ltac:(lia) Hlook).
  pose proof (Hall a (list_elem_of_lookup_2 _ _ _ Hlook)). lia.
Qed.

Lemma inserted_at_end {A} (s : list A) (x : A) :
  inserted_at s (length s) x = s ++ [x].
Proof. unfold inserted_at. by rewrite take_ge, drop_ge by lia. Qed.

Lemma strictly_ascending_snoc todos newTodo :
  strictly_ascending todos → (∀ a, a ∈ todos → ID a < ID newTodo) →
  strictly_ascending (todos ++ [newTodo]).
Proof.
  intros Hasc Hall. apply strictly_ascending_intro. intros i j a b Hij Hi Hj.
  destruct (decide (j < length todos)%nat).
  - rewrite lookup_app_l in Hi, Hj by lia.
    by apply (strictly_ascending_lookup todos i j).
  - rewrite lookup_app_r in Hj by lia.
    destruct (j - length todos)%nat eqn:E; [|by destruct n0]. injection Hj as <-.
    rewrite lookup_app_l in Hi by lia.
    apply Hall. by eapply list_elem_of_lookup_2.
Qed.

Section more_operations.
Context `{Library}.

Lemma loadTodos_Ok_open d todos : loadTodos d = Ok todos → open_fault d = false.
Proof. unfold loadTodos. by destruct (open_fault d). Qed.

(** The three operations up to their [saveTodos] call. *)
Lemma run_CreateTodo_save d req todos todos' :
  valid req → loadTodos d = Ok todos →
  let newTodo := mkTodo (getNextID todos) (TrimSpace (ReqContents req)) in
  insertTodoSorted todos newTodo = Val todos' →
  run (CreateTodo req) d =
    ((Val match (saveTodos d todos').1 with
          | Some err => Err (ErrWrap "failed to save todo" err)
          | None => Ok newTodo
          end), (saveTodos d todos').2).
Proof.
  intros Hv Hload newTodo Hins. unfold CreateTodo.
  rewrite validateTodoRequest_valid by done. cbn. rewrite Hload. cbn.
  fold newTodo. rewrite Hins. cbn.
  by destruct (saveTodos d todos') as [[err|] d'].
Qed.

Lemma run_UpdateTodo_save d id req todos (i : Z) old :
  valid req → loadTodos d = Ok todos →
  binarySearchTodoByID todos id = Val i → i ≠ -1 → index todos i = Val old →
  let updated := mkTodo (ID old) (TrimSpace (ReqContents req)) in
  let todos' := <[Z.to_nat i := updated]> todos in
  run (UpdateTodo id req) d =
    ((Val match (saveTodos d todos').1 with
          | Some err => Err (ErrWrap "failed to save todo" err)
          | None => Ok updated
          end), (saveTodos d todos').2).
Proof.
  intros Hv Hload Hfind Hi Hidx updated todos'.
  pose proof (index_inv _ _ _ Hidx) as [Hrange Hlook].
  unfold UpdateTodo. rewrite validateTodoRequest_valid by done.
  cbn. rewrite Hload. cbn. rewrite Hfind. cbn.
  rewrite bool_decide_eq_false_2 by done. rewrite Hidx. cbn.
  unfold store. rewrite bool_decide_eq_true_2 by done. cbn.
  fold updated. fold todos'.
  rewrite (index_lookup todos' i updated); [|lia|].
  - cbn. by destruct (saveTodos d todos') as [[err|] d'].
  - apply list_lookup_insert_eq. unfold len in Hrange. lia.
Qed.

Lemma run_DeleteTodo_save d id todos (i : Z) :
  loadTodos d = Ok todos →
  binarySearchTodoByID todos id = Val i → i ≠ -1 →
  let newTodos := delete (Z.to_nat i) todos in
  run (DeleteTodo id) d =
    ((Val match (saveTodos d newTodos).1 with
          | Some err => Some (ErrWrap "failed to save todos" err)
          | None => None
          end), (saveTodos d newTodos).2).
Proof.
  intros Hload Hfind Hi newTodos.
  destruct (binarySearchTodoByID_safe todos id) as (res & Hres & Hcases).
  rewrite Hfind in Hres. injection Hres as <-.
  destruct Hcases as [->|[Hrange _]]; [done|].
  unfold DeleteTodo. cbn. rewrite Hload. cbn. rewrite Hfind. cbn.
  rewrite bool_decide_eq_false_2 by done.
  rewrite removeAt_Val by lia. cbn. fold newTodos.
  by destruct (saveTodos d newTodos) as [[err|] d'].
Qed.

Lemma insertTodoSorted_at_end todos newTodo :
  ascending todos → (∀ a, a ∈ todos → ID a < ID newTodo) →
  insertTodoSorted todos newTodo = Val (todos ++ [newTodo]).
Proof.
  intros Hasc Hfresh.
  destruct (insertTodoSorted_Val todos newTodo Hasc) as (pos & Hpoint & Hins).
  rewrite (insertion_point_end _ _ _ Hpoint Hfresh) in Hins.
  unfold len in Hins. by rewrite Nat2Z.id, inserted_at_end in Hins.
Qed.

Lemma run_CreateTodo_appends d req todos :
  loadTodos d = Ok todos → Forall (λ todo, ID todo < MaxInt) todos →
  valid req → create_fault d = false → write_fault d = None →
  let newTodo := mkTodo (getNextID todos) (TrimSpace (ReqContents req)) in
  run (CreateTodo req) d
    = (Val (Ok newTodo), set_file d (Some (json_encode (todos ++ [newTodo])))).
Proof.
  intros Hload Hall Hv Hc Hw newTodo.
  assert (insertTodoSorted todos newTodo = Val (todos ++ [newTodo])) as Hins.
  { apply insertTodoSorted_at_end; [by eapply loadTodos_ascending|].
    intros a Ha. cbn. by apply getNextID_above. }
  rewrite (run_CreateTodo_save d req todos _ Hv Hload Hins).
  by rewrite saveTodos_healthy.
Qed.

(** X6. With no identifier at the largest [int], [CreateTodo] puts the new
    record at the end: it persists the loaded sequence followed by the new
    record, whose identifier is larger than all of them; a strictly
    ascending sequence stays strictly ascending. *)
Theorem CreateTodo_appends (d : Disk) (req : TodoRequest) (todos : list Todo) :
  loadTodos d = Ok todos → Forall (λ todo, ID todo < MaxInt) todos →
  valid req → create_fault d = false → write_fault d = None →
  let newTodo := mkTodo (getNextID todos) (TrimSpace (ReqContents req)) in
  run (CreateTodo req) d
    = (Val (Ok newTodo),
       set_file d (Some (json_encode (todos ++ [newTodo])))) ∧
  (∀ a, a ∈ todos → ID a < ID newTodo) ∧
  (strictly_ascending todos → strictly_ascending (todos ++ [newTodo])).
Proof.
  intros Hload Hall Hv Hc Hw newTodo.
  assert (∀ a, a ∈ todos → ID a < ID newTodo) as Hfresh.
  { intros a Ha. cbn. by apply getNextID_above. }
  split; [|split; [done|]].
  - by apply run_CreateTodo_appends.
  - intros Hasc. by apply strictly_ascending_snoc.
Qed.

(** X7. An identifier that the store does not hold: [UpdateTodo] (with valid
    contents) and [DeleteTodo] both fail with the not-found error for that
    identifier, without a call of [saveTodos]; the store is unchanged. *)
Theorem unknown_id_not_found (d : Disk) (todos : list Todo) (id : Z)
    (req : TodoRequest) :
  loadTodos d = Ok todos → (∀ a, a ∈ todos → ID a ≠ id) → valid req →
  run (UpdateTodo id req) d = (Val (Err (ErrNotFound id)), d) ∧
  run (DeleteTodo id) d = (Val (Some (ErrNotFound id)), d) ∧
  kind_of (ErrNotFound id) = NotFoundError.
Proof.
  intros Hload Hno Hv.
  pose proof (loadTodos_ascending _ _ Hload) as Hasc.
  assert (binarySearchTodoByID todos id = Val (-1)) as Hfind.
  { destruct (binarySearchTodoByID_safe todos id)
      as (res & Hres & [->|[_ (a & Ha & Hid)]]); [done|].
    apply index_inv in Ha as [_ Ha]. apply list_elem_of_lookup_2 in Ha.
    by destruct (Hno a Ha). }
  split; [|split; [|done]].
  - unfold UpdateTodo. rewrite validateTodoRequest_valid by done.
    cbn. rewrite Hload. cbn. by rewrite Hfind.
  - unfold DeleteTodo. cbn. rewrite Hload. cbn. by rewrite Hfind.
Qed.

(** X8. [DeleteTodo] of an identifier that the store holds, on a medium that
    takes the write: it persists the loaded sequence without one record,
    which had that identifier, the others in their order. When the loaded
    sequence is strictly ascending, loading again returns that shorter
    sequence and no record of it has the identifier. *)
Theorem DeleteTodo_removes (d : Disk) (todos : list Todo) (id : Z) :
  loadTodos d = Ok todos → (∃ a, a ∈ todos ∧ ID a = id) →
  create_fault d = false → write_fault d = None →
  ∃ i removed d',
    index todos i = Val removed ∧ ID removed = id ∧
    run (DeleteTodo id) d = (Val None, d') ∧
    file d' = Some (Array (delete (Z.to_nat i) todos)) ∧
    (strictly_ascending todos →
       loadTodos d' = Ok (delete (Z.to_nat i) todos) ∧
       ∀ a, a ∈ delete (Z.to_nat i) todos → ID a ≠ id).
Proof.
  intros Hload Hin Hc Hw.
  pose proof (loadTodos_ascending _ _ Hload) as Hasc.
  destruct (binarySearchTodoByID_present todos id Hasc Hin)
    as (i & Hfind & Hrange & removed & Hidx & Hid).
  pose proof (index_inv _ _ _ Hidx) as [Hi Hlook].
  assert (valid_contents (delete (Z.to_nat i) todos)) as Hvalid
    by (by eapply Forall_delete, loadTodos_valid_contents).
  exists i, removed, (set_file d (Some (json_encode (delete (Z.to_nat i) todos)))).
  split; [done|]. split; [done|]. split; [|split].
  - rewrite (run_DeleteTodo_save d id todos i Hload Hfind) by lia.
    by rewrite saveTodos_healthy.
  - cbn [set_file file]. by rewrite json_encode_valid.
  - intros Hstrict. split.
    + apply loadTodos_set_file_valid; [by eapply loadTodos_Ok_open| |done].
      by apply strictly_ascending_delete.
    + rewrite <-Hid. by apply strictly_ascending_delete_fresh.
Qed.

(** X9. When the file cannot be opened or does not decode, [CreateTodo],
    [UpdateTodo] and [DeleteTodo] return the load error wrapped in "failed
    to load todos", of the same kind, and make no call of [saveTodos]: a
    file that does not decode is never overwritten. *)
Theorem load_failure_propagates (d : Disk) (err : error) (id : Z)
    (req : TodoRequest) :
  loadTodos d = Err err → valid req →
  let wrapped := ErrWrap "failed to load todos" err in
  run (CreateTodo req) d = (Val (Err wrapped), d) ∧
  run (UpdateTodo id req) d = (Val (Err wrapped), d) ∧
  run (DeleteTodo id) d = (Val (Some wrapped), d) ∧
  kind_of wrapped = kind_of err ∧
  (err = ErrOpen ∨ err = ErrDecode).
Proof.
  intros Hload Hv wrapped. split; [|split; [|split; [|split; [done|]]]].
  - unfold CreateTodo. rewrite validateTodoRequest_valid by done.
    cbn. by rewrite Hload.
  - unfold UpdateTodo. rewrite validateTodoRequest_valid by done.
    cbn. by rewrite Hload.
  - unfold DeleteTodo. cbn. by rewrite Hload.
  - unfold loadTodos in Hload. destruct (open_fault d); [left; congruence|].
    destruct (file d) as [[|stored]|]; cbn in Hload; [right; congruence|done..].
Qed.

(** X10. When [os.Create] fails, nothing that runs on the store changes it,
    whatever the operation; [CreateTodo], having loaded, reports the
    failure wrapped in "failed to save todo". *)
Theorem create_fault_keeps_store (d : Disk) (req : TodoRequest)
    (todos : list Todo) :
  create_fault d = true →
  (∀ A (p : prog A), (run p d).2 = d) ∧
  (valid req → loadTodos d = Ok todos →
   run (CreateTodo req) d = (Val (Err (ErrWrap "failed to save todo" ErrCreate)), d)).
Proof.
  intros Hc.
  assert (∀ saved, saveTodos d saved = (Some ErrCreate, d)) as Hsave
    by (intros saved; unfold saveTodos; by rewrite Hc).
  split.
  - intros A p. induction p as [a| |k IH|saved k IH]; cbn; [done..|].
    rewrite Hsave. apply IH.
  - intros Hv Hload.
    destruct (insertTodoSorted_Val todos
                (mkTodo (getNextID todos) (TrimSpace (ReqContents req))))
      as (pos & _ & Hins); [by eapply loadTodos_ascending|].
    rewrite (run_CreateTodo_save d req todos _ Hv Hload Hins). by rewrite Hsave.
Qed.

End more_operations.

(** Strict ascent is a matter of the identifiers alone. *)
Lemma strictly_ascending_same_IDs todos1 todos2 :
  ID <$> todos1 = ID <$> todos2 →
  strictly_ascending todos1 → strictly_ascending todos2.
Proof.
  intros Hids Hasc. apply strictly_ascending_intro. intros i j a b Hij Hi Hj.
  apply (list_lookup_fmap_Some_2 ID) in Hi, Hj. rewrite <-Hids in Hi, Hj.
  apply list_lookup_fmap_Some_1 in Hi as (a' & -> & Hi).
  apply list_lookup_fmap_Some_1 in Hj as (b' & -> & Hj).
  by apply (strictly_ascending_lookup todos1 i j).
Qed.

Section store_invariant.
Context `{Library}.

Lemma loadTodos_file_sorted d todos :
  file_sorted d → loadTodos d = Ok todos →
  strictly_ascending todos ∧
  (file_below_MaxInt d → Forall (λ todo, ID todo < MaxInt) todos).
Proof.
  intros Hsorted Hload. unfold loadTodos in Hload.
  destruct (open_fault d); [done|].
  destruct (file d) as [[|stored]|] eqn:Hfile; cbn in Hload; [done| |].
  - injection Hload as <-.
    pose proof (strictly_ascending_json_record stored (Hsorted _ Hfile))
      as Hasc.
    rewrite (sort_Slice_strictly_ascending _ Hasc).
    split; [done|]. intros Hbelow. apply Forall_fmap.
    by apply (Hbelow stored Hfile).
  - injection Hload as <-. split; [constructor|]. by intros _.
Qed.

(** What a [saveTodos] can leave on a medium whose writes do not fail
    half-way: the store as it was, or the sequence in the file. *)
Lemma saveTodos_file_sorted d todos :
  file_sorted d → write_fault d = None → strictly_ascending todos →
  file_sorted (saveTodos d todos).2.
Proof.
  intros Hsorted Hw Hasc. unfold saveTodos. destruct (create_fault d); [done|].
  rewrite Hw. cbn. intros stored [= <-].
  by apply strictly_ascending_json_record.
Qed.

(** X11. Create followed by the delete of the new identifier gives the store
    back: on a strictly ascending store with no identifier at the largest
    [int], on a medium without faults, [CreateTodo] succeeds, [DeleteTodo]
    of the identifier it returned succeeds, and the store then loads as it
    did before the two. *)
Theorem create_then_delete (d : Disk) (req : TodoRequest) (todos : list Todo) :
  loadTodos d = Ok todos → strictly_ascending todos →
  Forall (λ todo, ID todo < MaxInt) todos →
  valid req → create_fault d = false → write_fault d = None →
  ∃ newTodo d1 d2,
    run (CreateTodo req) d = (Val (Ok newTodo), d1) ∧
    run (DeleteTodo (ID newTodo)) d1 = (Val None, d2) ∧
    loadTodos d2 = Ok todos.
Proof.
  intros Hload Hasc Hall Hv Hc Hw.
  pose proof (loadTodos_Ok_open _ _ Hload) as Hopen.
  pose proof (run_CreateTodo_appends d req todos Hload Hall Hv Hc Hw) as Hrun1.
  set (newTodo := mkTodo (getNextID todos) (TrimSpace (ReqContents req))) in *.
  assert (∀ a, a ∈ todos → ID a < ID newTodo) as Hfresh.
  { intros a Ha. cbn. by apply getNextID_above. }
  pose proof (strictly_ascending_snoc todos newTodo Hasc Hfresh) as Hasc1.
  set (d1 := set_file d (Some (json_encode (todos ++ [newTodo])))) in *.
  pose proof (loadTodos_valid_contents _ _ Hload) as Hvalid.
  assert (loadTodos d1 = Ok (todos ++ [json_record newTodo])) as Hload1.
  { unfold d1. rewrite loadTodos_set_file by done.
    by rewrite fmap_app, fmap_json_record_valid. }
  destruct (binarySearchTodoByID_present (todos ++ [json_record newTodo])
              (ID newTodo))
    as (i & Hfind & Hrange & a & Hidx & Hid).
  { by eapply loadTodos_ascending. }
  { exists (json_record newTodo). split; [|done].
    apply elem_of_app. right. by left. }
  pose proof (index_inv _ _ _ Hidx) as [Hi Hlook].
  assert (Z.to_nat i = length todos) as Hlast.
  { destruct (decide (Z.to_nat i < length todos)%nat) as [Hlt|Hge].
    - rewrite lookup_app_l in Hlook by done.
      pose proof (Hfresh a (list_elem_of_lookup_2 _ _ _ Hlook)). lia.
    - apply lookup_lt_Some in Hlook. rewrite length_app in Hlook. cbn in Hlook. lia. }
  exists newTodo, d1, (set_file d1 (Some (json_encode todos))).
  split; [done|]. split.
  - rewrite (run_DeleteTodo_save d1 (ID newTodo) _ i Hload1 Hfind) by lia.
    rewrite saveTodos_healthy by done.
    by rewrite Hlast, delete_middle, app_nil_r.
  - by apply loadTodos_set_file_valid.
Qed.

(** X12. The file stays strictly ascending. From a store whose file is strictly
    ascending, on a medium whose writes do not fail half-way, the store
    after [UpdateTodo] and after [DeleteTodo], whatever their arguments and
    their outcome, has a strictly ascending file; so has the store after
    [CreateTodo] when no identifier of the file is the largest [int]. *)
Theorem operations_keep_file_sorted (d : Disk) :
  file_sorted d → write_fault d = None →
  (∀ id req, file_sorted (run (UpdateTodo id req) d).2) ∧
  (∀ id, file_sorted (run (DeleteTodo id) d).2) ∧
  (file_below_MaxInt d → ∀ req, file_sorted (run (CreateTodo req) d).2).
Proof.
  intros Hsorted Hw. split; [|split].
  - intros id req. unfold UpdateTodo.
    destruct (validateTodoRequest req) as [err|] eqn:Hv; [done|].
    assert (valid req) as Hvalid.
    { unfold validateTodoRequest in Hv. by case_bool_decide. }
    cbn. destruct (loadTodos d) as [todos|err] eqn:Hload; [|done].
    destruct (loadTodos_file_sorted d todos Hsorted Hload) as [Hasc _].
    destruct (binarySearchTodoByID_safe todos id)
      as (i & Hfind & [->|[Hrange (old & Hidx & Hid)]]).
    { cbn. by rewrite Hfind. }
    pose proof (run_UpdateTodo_save d id req todos i old Hvalid Hload Hfind
                  ltac:(lia) Hidx) as Hrun.
    unfold UpdateTodo in Hrun. rewrite Hv in Hrun. cbn in Hrun.
    rewrite Hload in Hrun. rewrite Hrun. cbn.
    apply saveTodos_file_sorted; [done..|].
    apply (strictly_ascending_same_IDs todos); [|done].
    apply index_inv in Hidx as [_ Hlook].
    rewrite list_fmap_insert. symmetry. apply list_insert_id.
    by rewrite list_lookup_fmap, Hlook.
  - intros id. unfold DeleteTodo. cbn.
    destruct (loadTodos d) as [todos|err] eqn:Hload; [|done].
    destruct (loadTodos_file_sorted d todos Hsorted Hload) as [Hasc _].
    destruct (binarySearchTodoByID_safe todos id)
      as (i & Hfind & [->|[Hrange _]]).
    { cbn. by rewrite Hfind. }
    pose proof (run_DeleteTodo_save d id todos i Hload Hfind ltac:(lia)) as Hrun.
    unfold DeleteTodo in Hrun. cbn in Hrun. rewrite Hload in Hrun.
    rewrite Hrun. cbn.
    apply saveTodos_file_sorted; [done..|]. by apply strictly_ascending_delete.
  - intros Hbelow req. unfold CreateTodo.
    destruct (validateTodoRequest req) as [err|] eqn:Hv; [done|].
    assert (valid req) as Hvalid.
    { unfold validateTodoRequest in Hv. by case_bool_decide. }
    cbn. destruct (loadTodos d) as [todos|err] eqn:Hload; [|done].
    destruct (loadTodos_file_sorted d todos Hsorted Hload) as [Hasc Hall].
    specialize (Hall Hbelow).
    pose (newTodo := mkTodo (getNextID todos) (TrimSpace (ReqContents req))).
    destruct (insertTodoSorted_Val todos newTodo) as (pos & Hpoint & Hins);
      [by apply strictly_ascending_ascending|].
    pose proof (run_CreateTodo_save d req todos _ Hvalid Hload Hins) as Hrun.
    unfold CreateTodo in Hrun. rewrite Hv in Hrun. cbn in Hrun.
    rewrite Hload in Hrun. rewrite Hrun. cbn.
    apply saveTodos_file_sorted; [done..|].
    apply strictly_ascending_inserted_at; [done| |done].
    intros a Ha. pose proof (getNextID_above todos a Hall Ha). cbn. lia.
Qed.

End store_invariant.

(** * The linear search of the performance comparison *)

Lemma linearSearchTodoByID_from_spec (todos : list Todo) (targetID : Z) :
  ∀ i, 0 ≤ i →
    (linearSearchTodoByID_from i todos targetID = -1 ∧
     ∀ a, a ∈ todos → ID a ≠ targetID) ∨
    (∃ (n : nat) a,
       linearSearchTodoByID_from i todos targetID = i + Z.of_nat n ∧
       todos !! n = Some a ∧ ID a = targetID ∧
       ∀ (j : nat) b, (j < n)%nat → todos !! j = Some b → ID b ≠ targetID).
Proof.
  induction todos as [|todo rest IH]; intros i Hi; cbn.
  { left. split; [done|]. by intros a Ha%elem_of_nil. }
  case_bool_decide as Hid.
  - right. exists 0%nat, todo. split; [lia|]. split; [done|]. split; [done|].
    intros j b Hj. lia.
  - destruct (IH (i + 1)) as [[-> Hno]|(n & a & -> & Hlook & Ha & Hfirst)]; [lia| |].
    + left. split; [done|]. intros a [->|Ha]%elem_of_cons; [done|]. by apply Hno.
    + right. exists (S n), a. split; [lia|]. split; [done|]. split; [done|].
      intros [|j] b Hj Hb; cbn in Hb; [by injection Hb as <-|].
      apply (Hfirst j); [lia|done].
Qed.

(** X13. [linearSearchTodoByID] on any slice: it answers -1 exactly when no
    record has the target identifier, and otherwise the first position
    whose record has it. *)
Theorem linearSearchTodoByID_first (todos : list Todo) (targetID : Z) :
  (linearSearchTodoByID todos targetID = -1 ∧
   ∀ a, a ∈ todos → ID a ≠ targetID) ∨
  (0 ≤ linearSearchTodoByID todos targetID < len todos ∧
   (∃ a, index todos (linearSearchTodoByID todos targetID) = Val a ∧
         ID a = targetID) ∧
   ∀ j b, 0 ≤ j < linearSearchTodoByID todos targetID →
          index todos j = Val b → ID b ≠ targetID).
Proof.
  unfold linearSearchTodoByID.
  destruct (linearSearchTodoByID_from_spec todos targetID 0)
    as [?|(n & a & -> & Hlook & Ha & Hfirst)]; [lia|by left|].
  right. pose proof (lookup_lt_Some _ _ _ Hlook). split; [unfold len; lia|].
  split.
  - exists a. split; [|done]. apply index_lookup; [lia|].
    by replace (Z.to_nat (0 + Z.of_nat n)) with n by lia.
  - intros j b Hj [_ Hb]%index_inv. apply (Hfirst (Z.to_nat j)); [lia|done].
Qed.

(** In a strictly ascending sequence an identifier has one position. *)
Lemma strictly_ascending_position todos (i j : nat) a b :
  strictly_ascending todos → todos !! i = Some a → todos !! j = Some b →
  ID a = ID b → i = j.
Proof.
  intros Hasc Hi Hj Hid.
  destruct (Nat.lt_trichotomy i j) as [Hlt|[->|Hlt]]; [|done|].
  - pose proof (strictly_ascending_lookup todos i j a b Hasc Hlt Hi Hj). lia.
  - pose proof (strictly_ascending_lookup todos j i b a Hasc Hlt Hj Hi). lia.
Qed.

(** X14. What the performance comparison compares: on a strictly ascending
    slice the binary search of the service and the linear search return
    the same answer for every target. *)
Theorem binary_search_agrees_with_linear (todos : list Todo) (targetID : Z) :
  strictly_ascending todos →
  binarySearchTodoByID todos targetID = Val (linearSearchTodoByID todos targetID).
Proof.
  intros Hasc. unfold linearSearchTodoByID.
  destruct (binarySearchTodoByID_safe todos targetID) as (res & Hres & Hcases).
  rewrite Hres. f_equal.
  destruct (linearSearchTodoByID_from_spec todos targetID 0)
    as [[-> Hno]|(n & a & -> & Hlook & Ha & _)]; [lia| |].
  - destruct Hcases as [->|[_ (b & Hb & Hid)]]; [done|].
    apply index_inv in Hb as [_ Hb]. apply list_elem_of_lookup_2 in Hb.
    by destruct (Hno b Hb).
  - destruct Hcases as [->|[Hrange (b & Hb & Hid)]].
    + pose proof (binarySearchTodoByID_absent todos targetID
                    (strictly_ascending_ascending _ Hasc) Hres) as Habs.
      destruct (Habs a (list_elem_of_lookup_2 _ _ _ Hlook) Ha).
    + apply index_inv in Hb as [? Hb].
      pose proof (strictly_ascending_position todos _ _ _ _ Hasc Hb Hlook
                    ltac:(congruence)). lia.
Qed.

(** * The service before binary search *)

Lemma v1_DeleteTodo_loop_from (id : Z) (todos : list Todo) :
  ∀ (found : bool) (newTodos : list Todo),
    fold_left (λ '(found, newTodos) todo,
                 if bool_decide (ID todo ≠ id) then (found, newTodos ++ [todo])
                 else (true, newTodos))
              todos (found, newTodos)
    = (found || bool_decide (Exists (λ a, ID a = id) todos),
       newTodos ++ filter (λ a, ID a ≠ id) todos).
Proof.
  induction todos as [|todo rest IH]; intros found newTodos;
    cbn [fold_left]; cbv beta iota.
  { rewrite bool_decide_eq_false_2, orb_false_r, filter_nil, app_nil_r; [done|].
    by intros ?%Exists_nil. }
  destruct (decide (ID todo ≠ id)) as [Hid|Hid];
    [rewrite (bool_decide_eq_true_2 (ID todo ≠ id)) by done
    |rewrite (bool_decide_eq_false_2 (ID todo ≠ id)) by done]; rewrite IH.
  - rewrite filter_cons_True, <-app_assoc by done. do 2 f_equal.
    apply bool_decide_ext. rewrite Exists_cons.
    split; [by right|]. by intros [?|?].
  - rewrite filter_cons_False by (intros ?; done). f_equal.
    rewrite (bool_decide_eq_true_2 (Exists _ (todo :: rest))).
    + by rewrite orb_true_r.
    + apply Exists_cons. left. by destruct (decide (ID todo = id)).
Qed.

Lemma v1_DeleteTodo_loop_spec (id : Z) (todos : list Todo) :
  service_v1.DeleteTodo_loop id todos
    = (bool_decide (Exists (λ a, ID a = id) todos),
       filter (λ a, ID a ≠ id) todos).
Proof. unfold service_v1.DeleteTodo_loop. by rewrite v1_DeleteTodo_loop_from. Qed.

Lemma v1_UpdateTodo_loop_None (id : Z) (contents : string) (todos : list Todo) :
  (∀ a, a ∈ todos → ID a ≠ id) →
  service_v1.UpdateTodo_loop id contents todos = None.
Proof.
  induction todos as [|todo rest IH]; intros Hno; cbn; [done|].
  rewrite bool_decide_eq_false_2 by (apply Hno; by left).
  rewrite IH; [done|]. intros a Ha. apply Hno. by right.
Qed.

Lemma v1_UpdateTodo_loop_first (id : Z) (contents : string) (todos : list Todo) :
  ∀ (n : nat) old,
    todos !! n = Some old → ID old = id →
    (∀ (j : nat) b, (j < n)%nat → todos !! j = Some b → ID b ≠ id) →
    service_v1.UpdateTodo_loop id contents todos
      = Some (mkTodo id contents, <[n := mkTodo id contents]> todos).
Proof.
  induction todos as [|todo rest IH]; intros n old Hlook Hid Hfirst; [done|].
  cbn. destruct n as [|n]; cbn in Hlook.
  - injection Hlook as ->. rewrite bool_decide_eq_true_2 by done. by rewrite Hid.
  - rewrite bool_decide_eq_false_2 by (apply (Hfirst 0%nat); [lia|done]).
    rewrite (IH n old Hlook Hid); [done|].
    intros j b Hj Hb. apply (Hfirst (S j)); [lia|done].
Qed.

(** A record found by the first-match scan splits the slice. *)
Lemma first_match_split (id : Z) (todos : list Todo) :
  (∃ a, a ∈ todos ∧ ID a = id) →
  ∃ (n : nat) old,
    todos !! n = Some old ∧ ID old = id ∧
    (∀ (j : nat) b, (j < n)%nat → todos !! j = Some b → ID b ≠ id).
Proof.
  intros (a & Ha & Hid).
  destruct (linearSearchTodoByID_from_spec todos id 0)
    as [[_ Hno]|(n & old & _ & Hlook & Hold & Hfirst)]; [lia| |].
  - by destruct (Hno a Ha).
  - by exists n, old.
Qed.

Section v1_properties.
Context `{Library}.

Lemma v1_loadTodos_valid_contents d todos :
  service_v1.loadTodos d = Ok todos → valid_contents todos.
Proof.
  unfold service_v1.loadTodos. destruct (open_fault d); [done|].
  destruct (file d) as [[|stored]|]; cbn; intros [= <-].
  - apply valid_contents_json_record.
  - constructor.
Qed.

(** X15. The earlier [DeleteTodo], on a store that loads and a medium that
    takes the write: when some record has the identifier it persists the
    loaded sequence without every record that has it, the others in their
    order; when none has it, it fails with the not-found error and the
    store is unchanged. *)
Theorem v1_DeleteTodo_removes_all (d : Disk) (todos : list Todo) (id : Z) :
  service_v1.loadTodos d = Ok todos →
  create_fault d = false → write_fault d = None →
  ((∃ a, a ∈ todos ∧ ID a = id) →
   service_v1.run (service_v1.DeleteTodo id) d
     = (Val None,
        set_file d (Some (Array (filter (λ a, ID a ≠ id) todos))))) ∧
  ((∀ a, a ∈ todos → ID a ≠ id) →
   service_v1.run (service_v1.DeleteTodo id) d
     = (Val (Some (ErrNotFound id)), d)).
Proof.
  intros Hload Hc Hw. unfold service_v1.DeleteTodo. cbn. rewrite Hload. cbn.
  rewrite v1_DeleteTodo_loop_spec. split.
  - intros Hin. rewrite bool_decide_eq_true_2 by (by apply Exists_exists). cbn.
    rewrite saveTodos_healthy by done. rewrite json_encode_valid; [done|].
    apply Forall_forall. intros a [_ Ha]%list_elem_of_filter.
    pose proof (v1_loadTodos_valid_contents d todos Hload) as Hvalid.
    by apply (proj1 (Forall_forall _ _) Hvalid).
  - intros Hno. rewrite bool_decide_eq_false_2; [done|].
    intros (a & Ha & Hid)%Exists_exists. by destruct (Hno a Ha).
Qed.

(** X16. The earlier [UpdateTodo], on a store that loads, with valid contents
    and a medium that takes the write: it changes the first record that has
    the identifier, and only that one, to the trimmed contents; when none
    has it, it fails with the not-found error and the store is unchanged. *)
Theorem v1_UpdateTodo_first (d : Disk) (todos : list Todo) (id : Z)
    (req : TodoRequest) :
  service_v1.loadTodos d = Ok todos → valid req →
  create_fault d = false → write_fault d = None →
  let updated := mkTodo id (TrimSpace (ReqContents req)) in
  ((∃ a, a ∈ todos ∧ ID a = id) →
   ∃ before old after,
     todos = before ++ old :: after ∧ ID old = id ∧
     (∀ b, b ∈ before → ID b ≠ id) ∧
     service_v1.run (service_v1.UpdateTodo id req) d
       = (Val (Ok updated),
          set_file d (Some (json_encode (before ++ updated :: after))))) ∧
  ((∀ a, a ∈ todos → ID a ≠ id) →
   service_v1.run (service_v1.UpdateTodo id req) d
     = (Val (Err (ErrNotFound id)), d)).
Proof.
  intros Hload Hv Hc Hw updated. unfold service_v1.UpdateTodo.
  rewrite validateTodoRequest_valid by done. cbn. rewrite Hload. cbn. split.
  - intros (n & old & Hlook & Hid & Hfirst)%first_match_split.
    exists (take n todos), old, (drop (S n) todos).
    split; [by rewrite take_drop_middle|]. split; [done|]. split.
    + intros b (j & Hb & Hj)%elem_of_take. by apply (Hfirst j).
    + rewrite (v1_UpdateTodo_loop_first id _ todos n old Hlook Hid Hfirst). cbn.
      rewrite saveTodos_healthy by done. do 4 f_equal.
      apply insert_take_drop. by eapply lookup_lt_Some.
  - intros Hno. by rewrite v1_UpdateTodo_loop_None.
Qed.

End v1_properties.

(** * The two versions of the service *)



Section versions.
Context `{Library}.



End versions.

(** * Every outcome of the service operations *)

Section outcomes.
Context `{Library}.

Lemma valid_or_blank req :
  (valid req ∧ validateTodoRequest req = None) ∨
  (¬ valid req ∧ validateTodoRequest req = Some ErrEmptyContents).
Proof.
  unfold valid, validateTodoRequest. case_bool_decide as Hb; [right|left]; [|done].
  split; [|done]. by intros Hv.
Qed.

Lemma saveTodos_None d todos :
  (saveTodos d todos).1 = None ↔ create_fault d = false ∧ write_fault d = None.
Proof.
  unfold saveTodos. destruct (create_fault d); cbn.
  { split; [done|]. by intros [? _]. }
  destruct (write_fault d); cbn; split; try done. by intros [_ ?].
Qed.

Lemma saveTodos_unchanged_or_written d todos :
  (saveTodos d todos).2 = d ∨
  ∃ p, (saveTodos d todos).2 = set_file d (Some p).
Proof.
  unfold saveTodos. destruct (create_fault d); cbn; [by left|].
  destruct (write_fault d) as [p|]; cbn; right; eauto.
Qed.

(** The loaded sequence holds the identifier or not, and the search says
    which. *)
Lemma loaded_search d todos id :
  loadTodos d = Ok todos →
  (binarySearchTodoByID todos id = Val (-1) ∧ ∀ a, a ∈ todos → ID a ≠ id) ∨
  (∃ i old, binarySearchTodoByID todos id = Val i ∧ i ≠ -1 ∧
            index todos i = Val old ∧ ID old = id ∧ old ∈ todos).
Proof.
  intros Hload. pose proof (loadTodos_ascending _ _ Hload) as Hasc.
  destruct (binarySearchTodoByID_safe todos id)
    as (i & Hfind & [->|[Hrange (old & Hidx & Hid)]]).
  - left. split; [done|]. by apply binarySearchTodoByID_absent.
  - right. exists i, old. split; [done|]. split; [lia|]. split; [done|].
    split; [done|]. apply index_inv in Hidx as [_ Hlook].
    by eapply list_elem_of_lookup_2.
Qed.

Lemma run_CreateTodo_cases d req :
  (¬ valid req ∧ run (CreateTodo req) d = (Val (Err ErrEmptyContents), d)) ∨
  (valid req ∧ ∃ err, loadTodos d = Err err ∧
     run (CreateTodo req) d = (Val (Err (ErrWrap "failed to load todos" err)), d)) ∨
  (valid req ∧ ∃ todos todos', loadTodos d = Ok todos ∧
     run (CreateTodo req) d =
       (Val match (saveTodos d todos').1 with
            | Some err => Err (ErrWrap "failed to save todo" err)
            | None => Ok (mkTodo (getNextID todos) (TrimSpace (ReqContents req)))
            end, (saveTodos d todos').2)).
Proof.
  destruct (valid_or_blank req) as [[Hv Hval]|[Hv Hval]].
  2:{ left. split; [done|]. unfold CreateTodo. by rewrite Hval. }
  right. destruct (loadTodos d) as [todos|err] eqn:Hload.
  - right. split; [done|].
    destruct (insertTodoSorted_Val todos
                (mkTodo (getNextID todos) (TrimSpace (ReqContents req))))
      as (pos & _ & Hins); [by eapply loadTodos_ascending|].
    eexists todos, _. split; [done|].
    by apply (run_CreateTodo_save d req todos _ Hv Hload Hins).
  - left. split; [done|]. exists err. split; [done|].
    unfold CreateTodo. rewrite Hval. cbn. by rewrite Hload.
Qed.

Lemma run_UpdateTodo_cases d id req :
  (¬ valid req ∧ run (UpdateTodo id req) d = (Val (Err ErrEmptyContents), d)) ∨
  (valid req ∧ ∃ err, loadTodos d = Err err ∧
     run (UpdateTodo id req) d = (Val (Err (ErrWrap "failed to load todos" err)), d)) ∨
  (valid req ∧ ∃ todos, loadTodos d = Ok todos ∧ (∀ a, a ∈ todos → ID a ≠ id) ∧
     run (UpdateTodo id req) d = (Val (Err (ErrNotFound id)), d)) ∨
  (valid req ∧ ∃ todos todos', loadTodos d = Ok todos ∧
     (∃ a, a ∈ todos ∧ ID a = id) ∧
     run (UpdateTodo id req) d =
       (Val match (saveTodos d todos').1 with
            | Some err => Err (ErrWrap "failed to save todo" err)
            | None => Ok (mkTodo id (TrimSpace (ReqContents req)))
            end, (saveTodos d todos').2)).
Proof.
  destruct (valid_or_blank req) as [[Hv Hval]|[Hv Hval]].
  2:{ left. split; [done|]. unfold UpdateTodo. by rewrite Hval. }
  right. destruct (loadTodos d) as [todos|err] eqn:Hload.
  2:{ left. split; [done|]. exists err. split; [done|].
      unfold UpdateTodo. rewrite Hval. cbn. by rewrite Hload. }
  right. destruct (loaded_search d todos id Hload)
    as [[Hfind Hno]|(i & old & Hfind & Hi & Hidx & Hid & Hin)].
  - left. split; [done|]. exists todos. split; [done|]. split; [done|].
    unfold UpdateTodo. rewrite Hval. cbn. rewrite Hload. cbn. by rewrite Hfind.
  - right. split; [done|]. eexists todos, _. split; [done|].
    split; [by exists old|].
    rewrite (run_UpdateTodo_save d id req todos i old Hv Hload Hfind Hi Hidx).
    by rewrite Hid.
Qed.

Lemma run_DeleteTodo_cases d id :
  (∃ err, loadTodos d = Err err ∧
     run (DeleteTodo id) d = (Val (Some (ErrWrap "failed to load todos" err)), d)) ∨
  (∃ todos, loadTodos d = Ok todos ∧ (∀ a, a ∈ todos → ID a ≠ id) ∧
     run (DeleteTodo id) d = (Val (Some (ErrNotFound id)), d)) ∨
  (∃ todos newTodos, loadTodos d = Ok todos ∧ (∃ a, a ∈ todos ∧ ID a = id) ∧
     run (DeleteTodo id) d =
       (Val match (saveTodos d newTodos).1 with
            | Some err => Some (ErrWrap "failed to save todos" err)
            | None => None
            end, (saveTodos d newTodos).2)).
Proof.
  destruct (loadTodos d) as [todos|err] eqn:Hload.
  2:{ left. exists err. split; [done|]. unfold DeleteTodo. cbn. by rewrite Hload. }
  right. destruct (loaded_search d todos id Hload)
    as [[Hfind Hno]|(i & old & Hfind & Hi & Hidx & Hid & Hin)].
  - left. exists todos. split; [done|]. split; [done|].
    unfold DeleteTodo. cbn. rewrite Hload. cbn. by rewrite Hfind.
  - right. eexists todos, _. split; [done|]. split; [by exists old|].
    by apply (run_DeleteTodo_save d id todos i Hload Hfind Hi).
Qed.

End outcomes.

(** * The HTTP handlers *)

Section handlers_properties.
Context `{Library} `{handlers.Formatting}.

Import handlers.

Lemma Error_not_found id : Error (ErrNotFound id) = not_found_text id.
Proof. done. Qed.

Lemma Error_blank_ne id : Error ErrEmptyContents ≠ not_found_text id.
Proof. unfold not_found_text. cbn. discriminate. Qed.

Lemma Error_load_ne err id :
  Error (ErrWrap "failed to load todos" err) ≠ not_found_text id.
Proof. unfold not_found_text. cbn. discriminate. Qed.

Lemma Error_save_todo_ne err id :
  Error (ErrWrap "failed to save todo" err) ≠ not_found_text id.
Proof. unfold not_found_text. cbn. discriminate. Qed.

Lemma Error_save_todos_ne err id :
  Error (ErrWrap "failed to save todos" err) ≠ not_found_text id.
Proof. unfold not_found_text. cbn. discriminate. Qed.

(** X18. GET /todos never changes the store. It answers 200 with the loaded
    sequence, sorted ascending by identifier, or, when the file cannot be
    opened or does not decode, 500 with the text of the error. *)
Theorem GetTodos_responses (d : Disk) :
  (∃ todos,
     loadTodos d = Ok todos ∧ ascending todos ∧
     run GetTodos d
       = (Val (writeJSONResponse StatusOK
                 (mkTodoResponse "Todos retrieved successfully" todos)), d)) ∨
  (∃ err,
     loadTodos d = Err err ∧
     run GetTodos d
       = (Val (http_Error ("Failed to load todos: " +:+ Error err)
                          StatusInternalServerError), d)).
Proof.
  unfold GetTodos. cbn. destruct (loadTodos d) as [todos|err] eqn:Hload.
  - left. exists todos. split; [done|]. split; [|done].
    by eapply loadTodos_ascending.
  - right. by exists err.
Qed.

(** X19. POST /todos answers 201 or 400, nothing else: 201 exactly when the
    body decodes into a request with valid contents, the store loads and
    the medium takes the write, and then with the one new record, whose
    identifier is the allocator's. A failure to read or write the file is
    answered 400 like a bad request. *)
Theorem CreateTodo_handler_responses (d : Disk) (body : RequestBody) :
  ∃ resp d',
    run (handlers.CreateTodo body) d = (Val resp, d') ∧
    (status_of resp = StatusCreated ∨ status_of resp = StatusBadRequest) ∧
    (status_of resp = StatusCreated ↔
     ∃ req todos,
       body = BodyJSON req ∧ valid req ∧ loadTodos d = Ok todos ∧
       create_fault d = false ∧ write_fault d = None) ∧
    (∀ req todos,
       body = BodyJSON req → loadTodos d = Ok todos →
       status_of resp = StatusCreated →
       resp = writeJSONResponse StatusCreated
                (mkTodoResponse "Todo created successfully"
                   [mkTodo (getNextID todos) (TrimSpace (ReqContents req))])).
Proof.
  unfold handlers.CreateTodo.
  destruct body as [| |req]; cbn [readJSONRequest].
  1, 2: eexists _, _; split; [done|]; split; [by right|]; split;
    [split; [done|by intros (? & ? & ? & _)]|done].
  rewrite run_bind.
  destruct (run_CreateTodo_cases d req)
    as [[Hv ->]|[(Hv & err & Hload & ->)|(Hv & todos & todos' & Hload & ->)]].
  - eexists _, _. split; [done|]. split; [by right|]. split; [|done].
    split; [done|]. intros (? & ? & [= <-] & ? & _). done.
  - eexists _, _. split; [done|]. split; [by right|]. split.
    + split; [done|]. intros (? & ? & _ & _ & Hload' & _). congruence.
    + intros ? ? _ Hload'. congruence.
  - pose proof (saveTodos_None d todos') as Hsave.
    destruct (saveTodos d todos') as [[err|] d']; cbn in *.
    + eexists _, _. split; [done|]. split; [by right|]. split.
      * split; [done|]. intros (? & ? & _ & _ & _ & Hc & Hw).
        pose proof (proj2 Hsave (conj Hc Hw)) as Hbad. discriminate Hbad.
      * done.
    + eexists _, _. split; [done|]. split; [by left|]. split.
      * split; [|done]. intros _. exists req, todos.
        destruct (proj1 Hsave eq_refl). done.
      * intros ? ? [= <-] Hload' _. congruence.
Qed.

(** The cases of PUT /todos/{id}. *)
Lemma UpdateTodo_handler_cases (d : Disk) (idStr : string) (body : RequestBody) :
  (Atoi idStr = None ∧
   run (handlers.UpdateTodo idStr body) d
     = (Val (http_Error "Invalid todo ID" StatusBadRequest), d)) ∨
  (∃ id, Atoi idStr = Some id ∧
   ((∃ msg, readJSONRequest body = inl msg ∧
       run (handlers.UpdateTodo idStr body) d
         = (Val (http_Error msg StatusBadRequest), d)) ∨
    (∃ req, body = BodyJSON req ∧
     ((¬ valid req ∧
       run (handlers.UpdateTodo idStr body) d
         = (Val (http_Error "contents cannot be empty" StatusBadRequest), d)) ∨
      (valid req ∧ ∃ err, loadTodos d = Err err ∧
       run (handlers.UpdateTodo idStr body) d
         = (Val (http_Error (Error (ErrWrap "failed to load todos" err))
                            StatusBadRequest), d)) ∨
      (valid req ∧ ∃ todos, loadTodos d = Ok todos ∧
       (∀ a, a ∈ todos → ID a ≠ id) ∧
       run (handlers.UpdateTodo idStr body) d
         = (Val (http_Error "Todo not found" StatusNotFound), d)) ∨
      (valid req ∧ ∃ todos, loadTodos d = Ok todos ∧
       (∃ a, a ∈ todos ∧ ID a = id) ∧
       ((create_fault d = false ∧ write_fault d = None ∧
         ∃ d', run (handlers.UpdateTodo idStr body) d
                 = (Val (writeJSONResponse StatusOK
                           (mkTodoResponse "Todo updated successfully"
                              [mkTodo id (TrimSpace (ReqContents req))])), d')) ∨
        (¬ (create_fault d = false ∧ write_fault d = None) ∧
         ∃ err d', run (handlers.UpdateTodo idStr body) d
                     = (Val (http_Error
                               (Error (ErrWrap "failed to save todo" err))
                               StatusBadRequest), d')))))))).
Proof.
  unfold handlers.UpdateTodo. destruct (Atoi idStr) as [id|]; [|by left].
  right. exists id. split; [done|].
  destruct body as [| |req]; cbn [readJSONRequest];
    [left; by eexists..|].
  right. exists req. split; [done|]. rewrite run_bind.
  destruct (run_UpdateTodo_cases d id req)
    as [[Hv ->]|[(Hv & err & Hload & ->)
       |[(Hv & todos & Hload & Hno & ->)
        |(Hv & todos & todos' & Hload & Hin & ->)]]].
  - left. split; [done|]. cbn [run].
    by rewrite bool_decide_eq_false_2 by apply Error_blank_ne.
  - right; left. split; [done|]. exists err. split; [done|]. cbn [run].
    by rewrite bool_decide_eq_false_2 by apply Error_load_ne.
  - right; right; left. split; [done|]. exists todos. split; [done|].
    split; [done|]. cbn [run].
    by rewrite bool_decide_eq_true_2 by apply Error_not_found.
  - right; right; right. split; [done|]. exists todos. split; [done|].
    split; [done|]. pose proof (saveTodos_None d todos') as Hsave.
    destruct (saveTodos d todos') as [[err|] d']; cbn [fst snd] in *.
    + right. split.
      { intros Hok. pose proof (proj2 Hsave Hok) as Hbad. discriminate Hbad. }
      exists err, d'. cbn [run].
      by rewrite bool_decide_eq_false_2 by apply Error_save_todo_ne.
    + left. destruct (proj1 Hsave eq_refl) as [Hc Hw].
      split; [done|]. split; [done|]. by exists d'.
Qed.

(** Takes apart what a case of a handler and a condition on the request
    and the store say together, up to a contradiction or the goal. *)
Ltac settle :=
  intros;
  repeat match goal with
  | H : ∃ _, _ |- _ => destruct H
  | H : _ ∧ _ |- _ => destruct H
  | H : _ ∨ _ |- _ => destruct H
  end;
  repeat match goal with
  | H : BodyJSON _ = BodyJSON _ |- _ => injection H as ?; subst
  | H : readJSONRequest (BodyJSON _) = inl _ |- _ => discriminate H
  | H1 : ?x = _, H2 : ?x = _ |- _ =>
      rewrite H1 in H2; first [discriminate H2 | injection H2 as ?; subst]
  end;
  try done;
  try match goal with
      | Hno : ∀ a, a ∈ ?l → ID a ≠ _, Hin : ?x ∈ ?l |- _ =>
          by destruct (Hno x Hin)
      end;
  try match goal with
      | Hbad : ¬ (_ ∧ _) |- _ => by destruct Hbad
      end;
  try (eexists _, _, _; repeat split; by eauto);
  try (eexists _, _; repeat split; by eauto);
  eauto 10.

(** X20. PUT /todos/{id} answers 200, 400 or 404, never a 5xx. It answers 404
    exactly when the identifier parses, the body decodes into a request
    with valid contents, the store loads and holds no record with the
    identifier, and then the store is unchanged; in particular blank
    contents for an unknown identifier is a 400. It answers 200 exactly
    when such a record is there and the medium takes the write, with that
    record and the trimmed contents. A failure to read or write the file
    is answered 400. *)
Theorem UpdateTodo_handler_statuses (d : Disk) (idStr : string)
    (body : RequestBody) :
  ∃ resp d',
    run (handlers.UpdateTodo idStr body) d = (Val resp, d') ∧
    (status_of resp = StatusOK ∨ status_of resp = StatusBadRequest ∨
     status_of resp = StatusNotFound) ∧
    (status_of resp = StatusNotFound ↔
     ∃ id req todos,
       Atoi idStr = Some id ∧ body = BodyJSON req ∧ valid req ∧
       loadTodos d = Ok todos ∧ ∀ a, a ∈ todos → ID a ≠ id) ∧
    (status_of resp = StatusNotFound → d' = d) ∧
    (status_of resp = StatusOK ↔
     ∃ id req todos,
       Atoi idStr = Some id ∧ body = BodyJSON req ∧ valid req ∧
       loadTodos d = Ok todos ∧ (∃ a, a ∈ todos ∧ ID a = id) ∧
       create_fault d = false ∧ write_fault d = None) ∧
    (∀ id req,
       Atoi idStr = Some id → body = BodyJSON req →
       status_of resp = StatusOK →
       resp = writeJSONResponse StatusOK
                (mkTodoResponse "Todo updated successfully"
                   [mkTodo id (TrimSpace (ReqContents req))])).
Proof.
  destruct (UpdateTodo_handler_cases d idStr body)
    as [[Hat ->]
       |(id & Hat &
         [(msg & Hb & ->)
         |(req & -> &
           [[Hv ->]
           |[(Hv & err & Hload & ->)
            |[(Hv & todos & Hload & Hno & ->)
             |(Hv & todos & Hload & Hin &
               [(Hc & Hw & d' & ->)|(Hbad & err & d' & ->)])]]])])];
    eexists _, _; (split; [reflexivity|]); cbn [status_of];
    (split; [by eauto|]); (split; [split; [try done|]|]);
    try (split; [try done|]); try (split; [split; [try done|]|]); settle.
Qed.

(** The cases of DELETE /todos/{id}. *)
Lemma DeleteTodo_handler_cases (d : Disk) (idStr : string) :
  (Atoi idStr = None ∧
   run (handlers.DeleteTodo idStr) d
     = (Val (http_Error "Invalid todo ID" StatusBadRequest), d)) ∨
  (∃ id, Atoi idStr = Some id ∧
   ((∃ err, loadTodos d = Err err ∧
     run (handlers.DeleteTodo idStr) d
       = (Val (http_Error
                 ("Failed to delete todo: "
                    +:+ Error (ErrWrap "failed to load todos" err))
                 StatusInternalServerError), d)) ∨
    (∃ todos, loadTodos d = Ok todos ∧ (∀ a, a ∈ todos → ID a ≠ id) ∧
     run (handlers.DeleteTodo idStr) d
       = (Val (http_Error "Todo not found" StatusNotFound), d)) ∨
    (∃ todos, loadTodos d = Ok todos ∧ (∃ a, a ∈ todos ∧ ID a = id) ∧
     ((create_fault d = false ∧ write_fault d = None ∧
       ∃ d', run (handlers.DeleteTodo idStr) d
               = (Val (writeJSONResponse StatusOK
                         (mkTodoResponse "Todo deleted successfully" [])), d')) ∨
      (¬ (create_fault d = false ∧ write_fault d = None) ∧
       ∃ err d', run (handlers.DeleteTodo idStr) d
                   = (Val (http_Error
                             ("Failed to delete todo: "
                                +:+ Error (ErrWrap "failed to save todos" err))
                             StatusInternalServerError), d')))))).
Proof.
  unfold handlers.DeleteTodo. destruct (Atoi idStr) as [id|]; [|by left].
  right. exists id. split; [done|]. rewrite run_bind.
  destruct (run_DeleteTodo_cases d id)
    as [(err & Hload & ->)
       |[(todos & Hload & Hno & ->)
        |(todos & newTodos & Hload & Hin & ->)]].
  - left. exists err. split; [done|]. cbn [run].
    by rewrite bool_decide_eq_false_2 by apply Error_load_ne.
  - right; left. exists todos. split; [done|]. split; [done|]. cbn [run].
    by rewrite bool_decide_eq_true_2 by apply Error_not_found.
  - right; right. exists todos. split; [done|]. split; [done|].
    pose proof (saveTodos_None d newTodos) as Hsave.
    destruct (saveTodos d newTodos) as [[err|] d']; cbn [fst snd] in *.
    + right. split.
      { intros Hok. pose proof (proj2 Hsave Hok) as Hbad. discriminate Hbad. }
      exists err, d'. cbn [run].
      by rewrite bool_decide_eq_false_2 by apply Error_save_todos_ne.
    + left. destruct (proj1 Hsave eq_refl) as [Hc Hw].
      split; [done|]. split; [done|]. by exists d'.
Qed.

(** X21. DELETE /todos/{id} answers 200, 400, 404 or 500. It answers 400
    exactly when the identifier does not parse; 404 exactly when the store
    loads and holds no record with the identifier; 500 exactly when the
    file cannot be opened or does not decode, or the record is there and
    the write fails; 200 exactly when the record is there and the medium
    takes the write. A 400 or a 404 leaves the store unchanged. *)
Theorem DeleteTodo_handler_statuses (d : Disk) (idStr : string) :
  ∃ resp d',
    run (handlers.DeleteTodo idStr) d = (Val resp, d') ∧
    (status_of resp = StatusOK ∨ status_of resp = StatusBadRequest ∨
     status_of resp = StatusNotFound ∨
     status_of resp = StatusInternalServerError) ∧
    (status_of resp = StatusBadRequest ↔ Atoi idStr = None) ∧
    (status_of resp = StatusNotFound ↔
     ∃ id todos, Atoi idStr = Some id ∧ loadTodos d = Ok todos ∧
                 ∀ a, a ∈ todos → ID a ≠ id) ∧
    (status_of resp = StatusInternalServerError ↔
     ∃ id, Atoi idStr = Some id ∧
       ((∃ err, loadTodos d = Err err) ∨
        (∃ todos, loadTodos d = Ok todos ∧ (∃ a, a ∈ todos ∧ ID a = id) ∧
                  ¬ (create_fault d = false ∧ write_fault d = None)))) ∧
    (status_of resp = StatusOK ↔
     ∃ id todos, Atoi idStr = Some id ∧ loadTodos d = Ok todos ∧
                 (∃ a, a ∈ todos ∧ ID a = id) ∧
                 create_fault d = false ∧ write_fault d = None) ∧
    (status_of resp = StatusBadRequest ∨ status_of resp = StatusNotFound →
     d' = d).
Proof.
  destruct (DeleteTodo_handler_cases d idStr)
    as [[Hat ->]
       |(id & Hat &
         [(err & Hload & ->)
         |[(todos & Hload & Hno & ->)
          |(todos & Hload & Hin &
            [(Hc & Hw & d' & ->)|(Hbad & err & d' & ->)])]])];
    eexists _, _; (split; [reflexivity|]); cbn [status_of];
    (split; [by eauto|]);
    (split; [split; [try done|]|]); try (split; [split; [try done|]|]);
    try (split; [split; [try done|]|]); try (split; [split; [try done|]|]);
    settle.
Qed.

End handlers_properties.

(** * The further properties on the sample stores *)

Lemma CreateTodo_appends_witness :
  let newTodo := mkTodo 3 "water plants" in
  loadTodos (H:=reference.library) two_disk = Ok two_todos ∧
  Forall (λ todo, ID todo < MaxInt) two_todos ∧
  valid (H:=reference.library) sample_request ∧
  run (H:=reference.library) (CreateTodo sample_request) two_disk
    = (Val (Ok newTodo), set_file two_disk (Some (Array (two_todos ++ [newTodo])))) ∧
  (∀ a, a ∈ two_todos → ID a < ID newTodo) ∧
  (strictly_ascending two_todos → strictly_ascending (two_todos ++ [newTodo])).
Proof.
  intros newTodo.
  assert (loadTodos (H:=reference.library) two_disk = Ok two_todos) as Hload
    by (vm_compute; reflexivity).
  assert (Forall (λ todo, ID todo < MaxInt) two_todos) as Hall
    by (apply (bool_decide_unpack _); vm_compute; exact I).
  assert (valid (H:=reference.library) sample_request) as Hv
    by (vm_compute; discriminate).
  split; [exact Hload|]. split; [exact Hall|]. split; [exact Hv|].
  exact (CreateTodo_appends (H:=reference.library) two_disk sample_request
           two_todos Hload Hall Hv eq_refl eq_refl).
Defined.

Lemma unknown_id_not_found_witness :
  loadTodos (H:=reference.library) two_disk = Ok two_todos ∧
  (∀ a, a ∈ two_todos → ID a ≠ 999) ∧
  valid (H:=reference.library) sample_request ∧
  run (H:=reference.library) (UpdateTodo 999 sample_request) two_disk
    = (Val (Err (ErrNotFound 999)), two_disk) ∧
  run (H:=reference.library) (DeleteTodo 999) two_disk
    = (Val (Some (ErrNotFound 999)), two_disk) ∧
  kind_of (ErrNotFound 999) = NotFoundError.
Proof.
  assert (loadTodos (H:=reference.library) two_disk = Ok two_todos) as Hload
    by (vm_compute; reflexivity).
  assert (∀ a, a ∈ two_todos → ID a ≠ 999) as Hno.
  { apply Forall_forall. apply (bool_decide_unpack _). vm_compute. exact I. }
  assert (valid (H:=reference.library) sample_request) as Hv
    by (vm_compute; discriminate).
  split; [exact Hload|]. split; [exact Hno|]. split; [exact Hv|].
  exact (unknown_id_not_found (H:=reference.library) two_disk two_todos 999
           sample_request Hload Hno Hv).
Defined.

Lemma DeleteTodo_removes_witness :
  loadTodos (H:=reference.library) two_disk = Ok two_todos ∧
  (∃ a, a ∈ two_todos ∧ ID a = 2) ∧
  ∃ i removed d',
    index two_todos i = Val removed ∧ ID removed = 2 ∧
    run (H:=reference.library) (DeleteTodo 2) two_disk = (Val None, d') ∧
    file d' = Some (Array (delete (Z.to_nat i) two_todos)) ∧
    (strictly_ascending two_todos →
       loadTodos (H:=reference.library) d' = Ok (delete (Z.to_nat i) two_todos) ∧
       ∀ a, a ∈ delete (Z.to_nat i) two_todos → ID a ≠ 2).
Proof.
  assert (loadTodos (H:=reference.library) two_disk = Ok two_todos) as Hload
    by (vm_compute; reflexivity).
  assert (∃ a, a ∈ two_todos ∧ ID a = 2) as Hin
    by (exists (mkTodo 2 "walk dog"); split; [right; left|reflexivity]).
  split; [exact Hload|]. split; [exact Hin|].
  exact (DeleteTodo_removes (H:=reference.library) two_disk two_todos 2
           Hload Hin eq_refl eq_refl).
Defined.

Lemma load_failure_propagates_witness :
  let wrapped := ErrWrap "failed to load todos" ErrDecode in
  loadTodos (H:=reference.library) malformed_disk = Err ErrDecode ∧
  valid (H:=reference.library) sample_request ∧
  run (H:=reference.library) (CreateTodo sample_request) malformed_disk
    = (Val (Err wrapped), malformed_disk) ∧
  run (H:=reference.library) (UpdateTodo 1 sample_request) malformed_disk
    = (Val (Err wrapped), malformed_disk) ∧
  run (H:=reference.library) (DeleteTodo 1) malformed_disk
    = (Val (Some wrapped), malformed_disk) ∧
  kind_of wrapped = kind_of ErrDecode ∧
  (ErrDecode = ErrOpen ∨ ErrDecode = ErrDecode).
Proof.
  intros wrapped.
  assert (loadTodos (H:=reference.library) malformed_disk = Err ErrDecode) as Hload
    by reflexivity.
  assert (valid (H:=reference.library) sample_request) as Hv
    by (vm_compute; discriminate).
  split; [exact Hload|]. split; [exact Hv|].
  exact (load_failure_propagates (H:=reference.library) malformed_disk ErrDecode 1
           sample_request Hload Hv).
Defined.

Lemma create_fault_keeps_store_witness :
  create_fault read_only_disk = true ∧
  (∀ A (p : prog A), (run (H:=reference.library) p read_only_disk).2 = read_only_disk) ∧
  (valid (H:=reference.library) sample_request →
   loadTodos (H:=reference.library) read_only_disk = Ok two_todos →
   run (H:=reference.library) (CreateTodo sample_request) read_only_disk
     = (Val (Err (ErrWrap "failed to save todo" ErrCreate)), read_only_disk)).
Proof.
  assert (create_fault read_only_disk = true) as Hc by reflexivity.
  split; [exact Hc|].
  exact (create_fault_keeps_store (H:=reference.library) read_only_disk
           sample_request two_todos Hc).
Defined.

Lemma create_then_delete_witness :
  loadTodos (H:=reference.library) two_disk = Ok two_todos ∧
  strictly_ascending two_todos ∧
  Forall (λ todo, ID todo < MaxInt) two_todos ∧
  valid (H:=reference.library) sample_request ∧
  ∃ newTodo d1 d2,
    run (H:=reference.library) (CreateTodo sample_request) two_disk
      = (Val (Ok newTodo), d1) ∧
    run (H:=reference.library) (DeleteTodo (ID newTodo)) d1 = (Val None, d2) ∧
    loadTodos (H:=reference.library) d2 = Ok two_todos.
Proof.
  assert (loadTodos (H:=reference.library) two_disk = Ok two_todos) as Hload
    by (vm_compute; reflexivity).
  assert (strictly_ascending two_todos) as Hasc
    by (apply (bool_decide_unpack _); vm_compute; exact I).
  assert (Forall (λ todo, ID todo < MaxInt) two_todos) as Hall
    by (apply (bool_decide_unpack _); vm_compute; exact I).
  assert (valid (H:=reference.library) sample_request) as Hv
    by (vm_compute; discriminate).
  split; [exact Hload|]. split; [exact Hasc|]. split; [exact Hall|].
  split; [exact Hv|].
  exact (create_then_delete (H:=reference.library) two_disk sample_request
           two_todos Hload Hasc Hall Hv eq_refl eq_refl).
Defined.

Lemma two_disk_sorted : file_sorted two_disk.
Proof.
  intros stored [= <-]. apply (bool_decide_unpack _). vm_compute. exact I.
Defined.

Lemma two_disk_below_MaxInt : file_below_MaxInt two_disk.
Proof.
  intros stored [= <-]. apply (bool_decide_unpack _). vm_compute. exact I.
Defined.

Lemma operations_keep_file_sorted_witness :
  file_sorted two_disk ∧ write_fault two_disk = None ∧
  (∀ id req,
     file_sorted (run (H:=reference.library) (UpdateTodo id req) two_disk).2) ∧
  (∀ id, file_sorted (run (H:=reference.library) (DeleteTodo id) two_disk).2) ∧
  (file_below_MaxInt two_disk →
   ∀ req, file_sorted (run (H:=reference.library) (CreateTodo req) two_disk).2).
Proof.
  split; [exact two_disk_sorted|]. split; [reflexivity|].
  exact (operations_keep_file_sorted (H:=reference.library) two_disk
           two_disk_sorted eq_refl).
Defined.

Lemma binary_search_agrees_with_linear_witness :
  strictly_ascending five_todos ∧
  binarySearchTodoByID five_todos 7 = Val (linearSearchTodoByID five_todos 7).
Proof.
  assert (strictly_ascending five_todos) as Hasc
    by (apply (bool_decide_unpack _); vm_compute; exact I).
  split; [exact Hasc|].
  exact (binary_search_agrees_with_linear five_todos 7 Hasc).
Defined.

Lemma v1_DeleteTodo_removes_all_witness :
  service_v1.loadTodos repeated_disk = Ok repeated_todos ∧
  ((∃ a, a ∈ repeated_todos ∧ ID a = 3) →
   service_v1.run (service_v1.DeleteTodo 3) repeated_disk
     = (Val None,
        set_file repeated_disk
          (Some (Array (filter (λ a, ID a ≠ 3) repeated_todos))))) ∧
  ((∀ a, a ∈ repeated_todos → ID a ≠ 3) →
   service_v1.run (service_v1.DeleteTodo 3) repeated_disk
     = (Val (Some (ErrNotFound 3)), repeated_disk)).
Proof.
  assert (service_v1.loadTodos repeated_disk = Ok repeated_todos) as Hload
    by reflexivity.
  split; [exact Hload|].
  exact (v1_DeleteTodo_removes_all repeated_disk repeated_todos 3
           Hload eq_refl eq_refl).
Defined.

Lemma v1_UpdateTodo_first_witness :
  let updated := mkTodo 3 "water plants" in
  service_v1.loadTodos repeated_disk = Ok repeated_todos ∧
  valid (H:=reference.library) sample_request ∧
  ((∃ a, a ∈ repeated_todos ∧ ID a = 3) →
   ∃ before old after,
     repeated_todos = before ++ old :: after ∧ ID old = 3 ∧
     (∀ b, b ∈ before → ID b ≠ 3) ∧
     service_v1.run (service_v1.UpdateTodo (H:=reference.library) 3 sample_request)
                    repeated_disk
       = (Val (Ok updated),
          set_file repeated_disk
            (Some (json_encode (before ++ updated :: after))))) ∧
  ((∀ a, a ∈ repeated_todos → ID a ≠ 3) →
   service_v1.run (service_v1.UpdateTodo (H:=reference.library) 3 sample_request)
                  repeated_disk
     = (Val (Err (ErrNotFound 3)), repeated_disk)).
Proof.
  intros updated.
  assert (service_v1.loadTodos repeated_disk = Ok repeated_todos) as Hload
    by reflexivity.
  assert (valid (H:=reference.library) sample_request) as Hv
    by (vm_compute; discriminate).
  split; [exact Hload|]. split; [exact Hv|].
  exact (v1_UpdateTodo_first (H:=reference.library) repeated_disk repeated_todos 3
           sample_request Hload Hv eq_refl eq_refl).
Defined.


(** * The tests of the repository, on the model *)

(** The table of [TestBinarySearchTodoByID] and the two searches of
    [TestEmptyTodosOperations]. *)
Lemma TestBinarySearchTodoByID_passes :
  binarySearchTodoByID five_todos <$> [1; 9; 5; 3; 7; 2; 0; 10]
    = Val <$> [0; 4; 2; 1; 3; -1; -1; -1] ∧
  binarySearchTodoByID [] 1 = Val (-1) ∧
  insertTodoSorted [] (mkTodo 1 "First todo") = Val [mkTodo 1 "First todo"].
Proof. by vm_compute. Qed.

(** The table of [TestInsertTodoSorted]: the position of the new record,
    and a sorted result. *)
Lemma TestInsertTodoSorted_passes :
  Forall (λ '(newTodo, expectedPos),
            match insertTodoSorted three_todos newTodo with
            | Val result =>
                index result expectedPos = Val newTodo ∧
                bool_decide (strictly_ascending result) = true
            | Panic => False
            end)
         [(mkTodo 0 "Zero todo", 0); (mkTodo 2 "Second todo", 1);
          (mkTodo 5 "Fifth todo", 2); (mkTodo 10 "Tenth todo", 3)].
Proof. repeat constructor; by vm_compute. Qed.

(** [TestCRUDOperationsWithBinarySearch], from a file that does not exist:
    the identifiers 1 and 2, the sorted listing, the update, the failures
    on 999, the delete and the listing that remains. *)
Lemma TestCRUDOperationsWithBinarySearch_passes :
  let run_ref {A} (p : prog A) := run (H:=reference.library) p in
  let req s := mkTodoRequest 0 s in
  let d1 := set_file fresh_disk (Some (Array [mkTodo 1 "First todo"])) in
  let d2 := set_file fresh_disk
              (Some (Array [mkTodo 1 "First todo"; mkTodo 2 "Second todo"])) in
  let d3 := set_file fresh_disk
              (Some (Array [mkTodo 1 "Updated first todo";
                            mkTodo 2 "Second todo"])) in
  let d4 := set_file fresh_disk (Some (Array [mkTodo 2 "Second todo"])) in
  run_ref (CreateTodo (req "First todo")) fresh_disk
    = (Val (Ok (mkTodo 1 "First todo")), d1) ∧
  run_ref (CreateTodo (req "Second todo")) d1
    = (Val (Ok (mkTodo 2 "Second todo")), d2) ∧
  run_ref GetAllTodos d2
    = (Val (Ok [mkTodo 1 "First todo"; mkTodo 2 "Second todo"]), d2) ∧
  run_ref (UpdateTodo 1 (req "Updated first todo")) d2
    = (Val (Ok (mkTodo 1 "Updated first todo")), d3) ∧
  run_ref (UpdateTodo 999 (req "Updated first todo")) d3
    = (Val (Err (ErrNotFound 999)), d3) ∧
  run_ref (DeleteTodo 1) d3 = (Val None, d4) ∧
  run_ref GetAllTodos d4 = (Val (Ok [mkTodo 2 "Second todo"]), d4) ∧
  run_ref (DeleteTodo 999) d4 = (Val (Some (ErrNotFound 999)), d4).
Proof. by vm_compute. Qed.

(** * The allocator at the end of the range *)

Lemma max_from_upper (m bound : Z) todos :
  m ≤ bound → Forall (λ todo, ID todo ≤ bound) todos → max_from m todos ≤ bound.
Proof. intros Hm. unfold max_from. induction 1; cbn; lia. Qed.

(** X22. Once a record has the largest [int] as its identifier (no
    identifier being above it), the allocator wraps around: it returns the
    smallest [int], -2^63. *)
Theorem getNextID_wraps (todos : list Todo) :
  Forall (λ todo, ID todo ≤ MaxInt) todos →
  (∃ a, a ∈ todos ∧ ID a = MaxInt) →
  getNextID todos = MinInt.
Proof.
  intros Hall (a & Ha & Hid). unfold getNextID. cbv zeta. rewrite getNextID_fold.
  pose proof (max_from_upper 0 MaxInt todos ltac:(done) Hall).
  pose proof (max_from_elem 0 todos a Ha).
  replace (max_from 0 todos) with MaxInt by lia. reflexivity.
Qed.

Lemma getNextID_wraps_witness :
  let todos := [mkTodo 7 "seventh"; mkTodo MaxInt "last"] in
  Forall (λ todo, ID todo ≤ MaxInt) todos ∧
  (∃ a, a ∈ todos ∧ ID a = MaxInt) ∧
  getNextID todos = MinInt.
Proof.
  intros todos.
  assert (Forall (λ todo, ID todo ≤ MaxInt) todos) as Hall
    by (apply (bool_decide_unpack _); vm_compute; exact I).
  assert (∃ a, a ∈ todos ∧ ID a = MaxInt) as Hin
    by (exists (mkTodo MaxInt "last"); split; [right; left|reflexivity]).
  split; [exact Hall|]. split; [exact Hin|].
  exact (getNextID_wraps todos Hall Hin).
Defined.
